(** * Gateway bridge: a shallow embedding of [gateway.c] and of the packet
    encoders of [mock_sensor.c] / [n_mock_sensor.c].

    Bytes and C integers are integers of [Z]; every narrowing the C code
    performs ([& 0xFF], the conversion to [uint16_t]) is written out.  The
    5-byte receive buffer and the packed 13-byte frame are lists of bytes.
    The TCP stream and the UDP socket are interfaces ([ByteSource],
    [DatagramSink]); what the program does with them is recorded as a trace
    of events. *)

From Equations Require Import Equations.
From Stdlib Require Import ZArith List Lia Bool.
Import ListNotations.
Open Scope Z_scope.

Set Implicit Arguments.

(** ** Bytes *)

Definition is_byte (b : Z) : Prop := 0 <= b < 256.

Definition is_byteb (b : Z) : bool := (0 <=? b) && (b <? 256).

(** [x ^ (1 << k)]: bit [k] of [x] inverted. *)
Definition flip_bit (k : Z) (x : Z) : Z := Z.lxor x (Z.shiftl 1 k).

(** [l] with bit [k] of its element at index [i] inverted. *)
Fixpoint flip_at (i : nat) (k : Z) (l : list Z) : list Z :=
  match l, i with
  | [], _ => []
  | x :: l', O => flip_bit k x :: l'
  | x :: l', S i' => x :: flip_at i' k l'
  end.

(** ** The sensor side: packet encoding *)

Module MockSensor.

(** mock_sensor.c, lines 87-91, from the three payload bytes on. *)
Definition encode (b1 b2 b3 : Z) : list Z :=
  [0xAA; b1; b2; b3; Z.land (0xAA + b1 + b2 + b3) 0xFF].

(** mock_sensor.c, lines 87-91. *)
Definition buffer (voltage_mv temp_c : Z) : list Z :=
  encode (Z.land (Z.shiftr voltage_mv 8) 0xFF) (Z.land voltage_mv 0xFF) temp_c.

End MockSensor.

Module NMockSensor.

(** n_mock_sensor.c, lines 167-171: the checksum adds [buffer[0]] itself. *)
Definition buffer (voltage_mv temp_c : Z) : list Z :=
  let b0 := 0xAA in
  let b1 := Z.land (Z.shiftr voltage_mv 8) 0xFF in
  let b2 := Z.land voltage_mv 0xFF in
  let b3 := temp_c in
  [b0; b1; b2; b3; Z.land (b0 + b1 + b2 + b3) 0xFF].

End NMockSensor.

(** ** The gateway: validation, safety logic, frame *)

Definition STATUS_OK : Z := 0x00.
Definition STATUS_WARN_LOW_VOLT : Z := 0x01.
Definition STATUS_CRIT_TEMP : Z := 0x02.

(** gateway.c, line 140. *)
Definition calc_cs (volt_hi volt_lo temp : Z) : Z :=
  Z.land (0xAA + volt_hi + volt_lo + temp) 0xFF.

(** gateway.c, line 147; the assignment converts to [uint16_t]. *)
Definition voltage_mv (volt_hi volt_lo : Z) : Z :=
  Z.land (Z.lor (Z.shiftl volt_hi 8) volt_lo) 0xFFFF.

(** gateway.c, lines 154-160. *)
Definition status (temp voltage_mv : Z) : Z :=
  if temp >? 60 then STATUS_CRIT_TEMP
  else if voltage_mv <? 3100 then STATUS_WARN_LOW_VOLT
  else STATUS_OK.

(** What lines 130-145 make of a full buffer. *)
Inductive validation : Type :=
| SyncError (b0 : Z)
| ChecksumError
| Valid (volt_hi volt_lo temp : Z).

(** gateway.c, lines 130-145. *)
Definition validate (buffer : list Z) : validation :=
  if negb (nth 0 buffer 0 =? 0xAA) then SyncError (nth 0 buffer 0)
  else
    let volt_hi := nth 1 buffer 0 in
    let volt_lo := nth 2 buffer 0 in
    let temp := nth 3 buffer 0 in
    let rx_cs := nth 4 buffer 0 in
    if negb (calc_cs volt_hi volt_lo temp =? rx_cs) then ChecksumError
    else Valid volt_hi volt_lo temp.

(** The checksum as the specification words it: the wrapping 8-bit sum of
    the sync byte and the three payload bytes of the buffer. *)
Definition spec_checksum (buffer : list Z) : Z :=
  (nth 0 buffer 0 + nth 1 buffer 0 + nth 2 buffer 0 + nth 3 buffer 0) mod 256.

(** The validator as the specification words it. *)
Definition spec_validate (buffer : list Z) : validation :=
  if negb (nth 0 buffer 0 =? 0xAA) then SyncError (nth 0 buffer 0)
  else if negb (spec_checksum buffer =? nth 4 buffer 0) then ChecksumError
  else Valid (nth 1 buffer 0) (nth 2 buffer 0) (nth 3 buffer 0).

(** gateway.c, lines 38-42. *)
Record fake_can_frame_t : Type := {
  can_id : Z;
  dlc : Z;
  data : list Z
}.

(** gateway.c, lines 166-175. *)
Definition frame (volt_hi volt_lo temp status : Z) : fake_can_frame_t :=
  {| can_id := 0x100;
     dlc := 8;
     data := [volt_hi; volt_lo; temp; status] ++ repeat 0 4 |}.

Inductive endianness : Type := LittleEndian | BigEndian.

(** The four bytes of a [uint32_t] in memory, lowest address first. *)
Definition uint32_bytes (e : endianness) (x : Z) : list Z :=
  let le := [Z.land x 0xFF; Z.land (Z.shiftr x 8) 0xFF;
             Z.land (Z.shiftr x 16) 0xFF; Z.land (Z.shiftr x 24) 0xFF] in
  match e with
  | LittleEndian => le
  | BigEndian => rev le
  end.

(** The object representation of the packed struct: the [sizeof(frame)]
    bytes that line 181 hands to [sendto]. *)
Definition frame_bytes (e : endianness) (f : fake_can_frame_t) : list Z :=
  uint32_bytes e (can_id f) ++ [dlc f] ++ data f.

(** ** The two sockets

    [recv s len] is one call [recv(sock_tcp, p, len, 0)]: the returned value,
    the bytes written at [p], and the stream afterwards.  [sendto k dgram] is
    one call of line 181 and yields its return value. *)

Class ByteSource (Src : Type) : Type :=
  { recv : Src -> Z -> Z * list Z * Src }.

Class DatagramSink (Sink : Type) : Type :=
  { sendto : Sink -> list Z -> Z * Sink }.

(** A stream socket hands over between 1 and [len] bytes when it succeeds. *)
Definition well_behaved {Src} `{ByteSource Src} : Prop :=
  forall s len result bytes s',
    recv s len = (result, bytes, s') ->
    0 < result -> result <= len /\ Z.of_nat (length bytes) = result.

(** What the loop prints: lines 117, 131, 143 and 191. *)
Inductive message : Type :=
| SensorDisconnected
| SyncByteError (b0 : Z)
| ChecksumMismatch
| RxTx (voltage_mv temp status : Z).

(** The calls the loop makes, as they appear in a trace: [recv] (line 114)
    with the length asked for and the value returned, [printf], the two
    [close] of lines 118-119, and [sendto] (line 181) with the bytes handed
    over and the value returned. *)
Inductive event : Type :=
| Recv (len result : Z)
| Printf (m : message)
| CloseTcp
| CloseUdp
| Sendto (dgram : list Z) (result : Z).

(** [recv] writing [bytes] at [buffer + off].  A well-behaved [recv]
    never writes past the five bytes of the buffer; [store] is only meant
    for writes that fit. *)
Definition store (buffer : list Z) (off : Z) (bytes : list Z) : list Z :=
  firstn (Z.to_nat off) buffer ++ bytes
    ++ skipn (Z.to_nat off + length bytes) buffer.

(** How the loop of lines 113-124 ends: by the [return 1] of line 120, or
    with a full buffer. *)
Inductive read_outcome (Src : Type) : Type :=
| LinkLost (s : Src)
| Packet (buffer : list Z) (s : Src).
Arguments LinkLost {Src} s.
Arguments Packet {Src} buffer s.

(** The loop variant of lines 113-124: how many bytes are still missing. *)
Definition remaining (bytes_read : Z) : nat := Z.to_nat (5 - bytes_read).
Arguments remaining : simpl never.

Section Reassembly.
Context {Src : Type} `{ByteSource Src}.

(** gateway.c, lines 113-124, entered with [bytes_read] bytes in [buffer]. *)
Equations? read_packet (s : Src) (buffer : list Z) (bytes_read : Z)
  : read_outcome Src * list event by wf (remaining bytes_read) lt :=
read_packet s buffer bytes_read with Z_lt_dec bytes_read 5 := {
  | right _ => (Packet buffer s, []);
  | left _ with recv s (5 - bytes_read) := {
    | (result, bytes, s') with Z_le_gt_dec result 0 := {
      | left _ =>
          (LinkLost s',
           [Recv (5 - bytes_read) result; Printf SensorDisconnected;
            CloseTcp; CloseUdp]);
      | right _ =>
          let (out, tr) :=
            read_packet s' (store buffer bytes_read bytes)
                        (bytes_read + result) in
          (out, Recv (5 - bytes_read) result :: tr) } } }.
Proof. unfold remaining. lia. Qed.

End Reassembly.

(** ** The steady-state loop *)

(** How an iteration of the main loop ends: [main] returns, or the next
    iteration starts. *)
Inductive step_result (St : Type) : Type :=
| Exit (code : Z)
| Continue (st : St).
Arguments Exit {St} code.
Arguments Continue {St} st.

Section Bridge.
Context {Src Sink : Type} `{ByteSource Src} `{DatagramSink Sink}.
Variable host : endianness.

(** What one iteration of [while (1)] starts from: both sockets and the
    contents of [buffer], which is declared outside the loop. *)
Record state : Type := {
  sock_tcp : Src;
  sock_udp : Sink;
  buffer : list Z
}.

(** gateway.c, lines 110-197: one iteration of the main loop. *)
Definition cycle (st : state) : step_result state * list event :=
  match read_packet (sock_tcp st) (buffer st) 0 with
  | (LinkLost _, tr) => (Exit 1, tr)
  | (Packet buf s', tr) =>
      match validate buf with
      | SyncError b0 =>
          (Continue {| sock_tcp := s'; sock_udp := sock_udp st; buffer := buf |},
           tr ++ [Printf (SyncByteError b0)])
      | ChecksumError =>
          (Continue {| sock_tcp := s'; sock_udp := sock_udp st; buffer := buf |},
           tr ++ [Printf ChecksumMismatch])
      | Valid volt_hi volt_lo temp =>
          let mv := voltage_mv volt_hi volt_lo in
          let st8 := status temp mv in
          let dgram := frame_bytes host (frame volt_hi volt_lo temp st8) in
          let (sent, k') := sendto (sock_udp st) dgram in
          (Continue {| sock_tcp := s'; sock_udp := k'; buffer := buf |},
           tr ++ [Sendto dgram sent; Printf (RxTx mv temp st8)])
      end
  end.

(** The first [n] iterations of the main loop (line 109), or fewer when an
    iteration leaves [main]. *)
Fixpoint bridge (n : nat) (st : state) : step_result state * list event :=
  match n with
  | O => (Continue st, [])
  | S n' =>
      match cycle st with
      | (Exit code, tr) => (Exit code, tr)
      | (Continue st', tr) =>
          let (out, tr') := bridge n' st' in (out, tr ++ tr')
      end
  end.

End Bridge.
Arguments state : clear implicits.

(** ** Observations on a trace *)

(** The number of [recv] calls. *)
Fixpoint reads (tr : list event) : nat :=
  match tr with
  | [] => O
  | Recv _ _ :: tr' => S (reads tr')
  | _ :: tr' => reads tr'
  end.

(** The number of bytes taken from the stream. *)
Fixpoint consumed (tr : list event) : Z :=
  match tr with
  | [] => 0
  | Recv _ result :: tr' => Z.max 0 result + consumed tr'
  | _ :: tr' => consumed tr'
  end.

(** The datagrams handed to [sendto], in order. *)
Fixpoint sends (tr : list event) : list (list Z) :=
  match tr with
  | [] => []
  | Sendto dgram _ :: tr' => dgram :: sends tr'
  | _ :: tr' => sends tr'
  end.

(** What was printed, in order. *)
Fixpoint printed (tr : list event) : list message :=
  match tr with
  | [] => []
  | Printf m :: tr' => m :: printed tr'
  | _ :: tr' => printed tr'
  end.

(** A [recv] that handed over at least one byte. *)
Definition positive_read (e : event) : Prop :=
  match e with
  | Recv _ result => 0 < result
  | _ => True
  end.

(** What lines 117-120 leave in the trace after the failed [recv]. *)
Definition lost_tail : list event :=
  [Printf SensorDisconnected; CloseTcp; CloseUdp].

Ltac trace_simpl :=
  unfold lost_tail; cbn [consumed reads sends printed app length].

(** ** Test doubles for the two sockets *)

(** A stream that delivers the listed chunks, one [recv] never reaching
    beyond the chunk at the head, fails where [Failure] stands, and is at
    end-of-stream when the list is used up. *)
Inductive delivery : Type :=
| Data (bytes : list Z)
| Failure.

Definition script_recv (s : list delivery) (len : Z)
  : Z * list Z * list delivery :=
  match s with
  | [] => (0, [], [])
  | Failure :: s' => (-1, [], s')
  | Data bytes :: s' =>
      let got := firstn (Z.to_nat len) bytes in
      (Z.of_nat (length got), got,
       match skipn (Z.to_nat len) bytes with
       | [] => s'
       | rest => Data rest :: s'
       end)
  end.

#[export] Instance script_source : ByteSource (list delivery) :=
  {| recv := script_recv |}.

(** A socket whose [sendto] returns the listed values in turn, and the
    datagram's length once the list is used up. *)
Definition scripted_sendto (k : list Z) (dgram : list Z) : Z * list Z :=
  match k with
  | [] => (Z.of_nat (length dgram), [])
  | r :: k' => (r, k')
  end.

#[export] Instance scripted_sink : DatagramSink (list Z) :=
  {| sendto := scripted_sendto |}.

(** ** Auxiliary definitions of the proofs *)

(** The integers from 0 up to [n], excluded. *)
Definition bytes_below (n : nat) : list Z := map Z.of_nat (seq 0 n).

(** Inverting bit [k] keeps [b] a byte and moves it by an amount that is
    not a multiple of 256. *)
Definition flip_moves (b k : Z) : bool :=
  is_byteb (flip_bit k b) && negb ((flip_bit k b - b) mod 256 =? 0).

(** A trace with the return values of [sendto] blanked. *)
Definition forget_sent (e : event) : event :=
  match e with
  | Sendto dgram _ => Sendto dgram 0
  | _ => e
  end.

(** Two outcomes that differ at most in the state of the UDP socket. *)
Definition same_progress {Src Sink : Type}
    (o1 o2 : step_result (state Src Sink)) : Prop :=
  match o1, o2 with
  | Exit c1, Exit c2 => c1 = c2
  | Continue st1, Continue st2 =>
      sock_tcp st1 = sock_tcp st2 /\ buffer st1 = buffer st2
  | _, _ => False
  end.

(** The reads the loop makes when every chunk lies within the packet. *)
Fixpoint chunk_reads (bytes_read : Z) (chunks : list (list Z)) : list event :=
  match chunks with
  | [] => []
  | c :: chunks' =>
      Recv (5 - bytes_read) (Z.of_nat (length c))
        :: chunk_reads (bytes_read + Z.of_nat (length c)) chunks'
  end.

(** ** Concrete inputs *)

Definition scenario_volt_hi : Z := 0x0C.
Definition scenario_volt_lo : Z := 0x1C.
Definition scenario_temp : Z := 0x2D.

(** The packet of the scenario as the specification prints it. *)
Definition scenario_packet : list Z :=
  [0xAA; scenario_volt_hi; scenario_volt_lo; scenario_temp; 0x07].

(** The packet both sensor programs emit for 3100 mV and 45 degrees. *)
Definition sensor_packet_3100_45 : list Z := MockSensor.buffer 3100 45.

(** The sensor sends one packet and two bytes of the next, then closes the
    stream; the only [sendto] fails. *)
Definition cut_stream_state : state (list delivery) (list Z) :=
  {| sock_tcp := [Data [0xAA; 0x0C]; Data [0x1C; 0x2D; 0xFF; 0xAA]; Data [0x0C]];
     sock_udp := [-1];
     buffer := [0; 0; 0; 0; 0] |}.

(** What the gateway does on that stream. *)
Definition cut_stream_trace : list event :=
  [Recv 5 2; Recv 3 3;
   Sendto [0; 1; 0; 0; 8; 0x0C; 0x1C; 0x2D; 0; 0; 0; 0; 0] (-1);
   Printf (RxTx 3100 45 STATUS_OK);
   Recv 5 1; Recv 4 1; Recv 3 0;
   Printf SensorDisconnected; CloseTcp; CloseUdp].

(** One packet, and a UDP socket whose [sendto] fails. *)
Definition failing_send_state : state (list delivery) (list Z) :=
  {| sock_tcp := [Data sensor_packet_3100_45];
     sock_udp := [-1];
     buffer := [0; 0; 0; 0; 0] |}.

(** The same packet, and a UDP socket whose [sendto] sends all 13 bytes. *)
Definition working_send_state : state (list delivery) (list Z) :=
  {| sock_tcp := [Data sensor_packet_3100_45];
     sock_udp := [13];
     buffer := [0; 0; 0; 0; 0] |}.

(** ** The simulation loop of mock_sensor.c *)

Module MockSensorMain.

(** The variables of lines 59-61 that the loop reads and writes. *)
Record sim : Type := {
  voltage_mv : Z;
  temp_c : Z;
  total_packets_sent : Z
}.

(** mock_sensor.c, lines 59-61. *)
Definition start : sim :=
  {| voltage_mv := 3300; temp_c := 45; total_packets_sent := 0 |}.

(** mock_sensor.c, lines 65-84: the update of one turn of the loop.  The
    [noise] of line 71 is computed and never used; [voltage_mv] is a
    [uint16_t], [%] is the remainder of C. *)
Definition step (s : sim) : sim :=
  let n := total_packets_sent s + 1 in
  let v := Z.land (voltage_mv s + 10) 0xFFFF in
  let v := if v >? 4000 then 3000 else v in
  let v := if n >? 300 then (if Z.rem n 50 =? 0 then 100 else v) else v in
  {| voltage_mv := v; temp_c := temp_c s; total_packets_sent := n |}.




(** The state at the end of turn [n], counted from 1; [after 0] is the
    initial state. *)
Definition after (n : nat) : sim := Nat.iter n step start.

(** What the loop keeps true of its state: a sawtooth between 3000 and
    4000 in steps of 10 through packet 349, and from packet 350 on a ramp
    that restarts at 100 every 50 packets. *)
Definition on_course (s : sim) : Prop :=
  temp_c s = 45 /\ 0 <= total_packets_sent s /\
  ((total_packets_sent s <= 349 /\
    3000 <= voltage_mv s <= 4000 /\ voltage_mv s mod 10 = 0) \/
   (350 <= total_packets_sent s /\
    voltage_mv s = 100 + 10 * (total_packets_sent s mod 50))).

End MockSensorMain.

(** ** gateway.c before the main loop: sockets and connection *)

(** What the operating system answers during lines 66-100: the two calls
    of [socket] and the successive calls of [connect]. *)
Record boot_env : Type := {
  udp_socket : Z;
  tcp_socket : Z;
  connect_results : list Z
}.

Inductive boot_event : Type :=
| PerrorUdp
| PerrorTcp
| Connect (result : Z)
| Sleep (seconds : Z).

(** Where lines 66-103 end: [main] has returned, the loop of line 97 is
    still retrying when the listed answers are used up, or the bridge
    starts. *)
Inductive boot_outcome : Type :=
| BootReturn (code : Z)
| BootWaiting
| BootConnected.

(** gateway.c, lines 97-100. *)
Fixpoint connect_loop (results : list Z) : boot_outcome * list boot_event :=
  match results with
  | [] => (BootWaiting, [])
  | result :: results' =>
      if result <? 0 then
        let (out, tr) := connect_loop results' in
        (out, Connect result :: Sleep 2 :: tr)
      else (BootConnected, [Connect result])
  end.

(** gateway.c, lines 66-103. *)
Definition startup (env : boot_env) : boot_outcome * list boot_event :=
  if udp_socket env <? 0 then (BootReturn 1, [PerrorUdp])
  else if tcp_socket env <? 0 then (BootReturn 1, [PerrorTcp])
  else connect_loop (connect_results env).

(** How [main] stands after the start-up and at most [n] iterations of the
    main loop. *)
Inductive main_outcome (St : Type) : Type :=
| Returned (code : Z)
| Connecting
| Streaming (st : St).
Arguments Returned {St} code.
Arguments Connecting {St}.
Arguments Streaming {St} st.

(** gateway.c, lines 44-210, on the stream [s], the UDP socket [k] and
    the initial contents [buffer0] of the receive buffer. *)
Definition main {Src Sink : Type} `{ByteSource Src} `{DatagramSink Sink}
    (host : endianness) (env : boot_env) (n : nat)
    (s : Src) (k : Sink) (buffer0 : list Z)
  : main_outcome (state Src Sink) * list boot_event * list event :=
  match startup env with
  | (BootReturn code, boot) => (Returned code, boot, [])
  | (BootWaiting, boot) => (Connecting, boot, [])
  | (BootConnected, boot) =>
      match bridge host n
              {| sock_tcp := s; sock_udp := k; buffer := buffer0 |} with
      | (Exit code, tr) => (Returned code, boot, tr)
      | (Continue st, tr) => (Streaming st, boot, tr)
      end
  end.

(** ** What a five-byte window leads to *)

(** The datagrams one iteration sends for the window [w] (lines 130-188). *)
Definition window_sends (host : endianness) (w : list Z) : list (list Z) :=
  match validate w with
  | Valid volt_hi volt_lo temp =>
      [frame_bytes host
         (frame volt_hi volt_lo temp (status temp (voltage_mv volt_hi volt_lo)))]
  | _ => []
  end.

(** The line one iteration prints for the window [w] (lines 131, 143, 191). *)
Definition window_print (w : list Z) : message :=
  match validate w with
  | SyncError b0 => SyncByteError b0
  | ChecksumError => ChecksumMismatch
  | Valid volt_hi volt_lo temp =>
      RxTx (voltage_mv volt_hi volt_lo) temp
           (status temp (voltage_mv volt_hi volt_lo))
  end.

(** [l] with its element at index [i] replaced by [x]. *)
Fixpoint put_at (i : nat) (x : Z) (l : list Z) : list Z :=
  match l, i with
  | [], _ => []
  | _ :: l', O => x :: l'
  | y :: l', S i' => y :: put_at i' x l'
  end.

(** The packet encoding of a payload triple. *)
Definition encode_payload (p : Z * Z * Z) : list Z :=
  let '(b1, b2, b3) := p in MockSensor.encode b1 b2 b3.

(** The windows the gateway sees when the stream of the packets [ps] is
    preceded by the bytes [carry] of a packet whose head was lost: every
    window ends with the sync byte of the next packet.  The second
    component is what remains at the end. *)
Fixpoint slipped_windows (carry : list Z) (ps : list (Z * Z * Z))
  : list (list Z) * list Z :=
  match ps with
  | [] => ([], carry)
  | p :: ps' =>
      let (ws, left) := slipped_windows (tl (encode_payload p)) ps' in
      ((carry ++ [0xAA]) :: ws, left)
  end.

(** * Properties *)

(** ** Bytes and checksums *)

Lemma land_0xFF (x : Z) : Z.land x 0xFF = x mod 256.
Proof. exact (Z.land_ones x 8 ltac:(lia)). Qed.

Lemma calc_cs_mod (volt_hi volt_lo temp : Z) :
  calc_cs volt_hi volt_lo temp = (0xAA + volt_hi + volt_lo + temp) mod 256.
Proof. unfold calc_cs. apply land_0xFF. Qed.

Lemma calc_cs_byte (volt_hi volt_lo temp : Z) :
  is_byte (calc_cs volt_hi volt_lo temp).
Proof. rewrite calc_cs_mod. unfold is_byte. apply Z.mod_pos_bound. lia. Qed.

Lemma is_byteb_spec (b : Z) : is_byteb b = true <-> is_byte b.
Proof. unfold is_byteb, is_byte. rewrite andb_true_iff. lia. Qed.

Lemma bytes_below_spec (n : nat) (b : Z) :
  0 <= b < Z.of_nat n -> In b (bytes_below n).
Proof.
  intros Hb. unfold bytes_below. apply in_map_iff.
  exists (Z.to_nat b). split; [lia | apply in_seq; lia].
Qed.

Lemma flip_moves_all :
  forallb (fun b => forallb (flip_moves b) (bytes_below 8)) (bytes_below 256)
  = true.
Proof. vm_compute. reflexivity. Qed.

Lemma flip_bit_moves (b k : Z) :
  is_byte b -> 0 <= k < 8 ->
  is_byte (flip_bit k b) /\ (flip_bit k b - b) mod 256 <> 0.
Proof.
  intros Hb Hk.
  pose proof flip_moves_all as Hall.
  rewrite forallb_forall in Hall.
  specialize (Hall b (bytes_below_spec 256 Hb)).
  rewrite forallb_forall in Hall.
  specialize (Hall k (bytes_below_spec 8 Hk)).
  unfold flip_moves in Hall. apply andb_true_iff in Hall.
  destruct Hall as [Hin Hne]. split.
  - now apply is_byteb_spec.
  - apply negb_true_iff in Hne. now apply Z.eqb_neq.
Qed.

Lemma mod_sum_differs (s b b' : Z) :
  (b' - b) mod 256 <> 0 -> (s + b') mod 256 <> (s + b) mod 256.
Proof.
  intros Hne Heq. apply Hne.
  replace (b' - b) with ((s + b') - (s + b)) by lia.
  rewrite Zminus_mod, Heq, Z.sub_diag. reflexivity.
Qed.

Lemma validate_encoded (b1 b2 b3 : Z) :
  validate (MockSensor.encode b1 b2 b3) = Valid b1 b2 b3.
Proof.
  unfold validate, MockSensor.encode; cbn [nth].
  change (170 =? 170) with true; cbn [negb].
  unfold calc_cs. rewrite Z.eqb_refl. reflexivity.
Qed.

Lemma validate_bad_checksum (b1 b2 b3 cs : Z) :
  calc_cs b1 b2 b3 <> cs -> validate [0xAA; b1; b2; b3; cs] = ChecksumError.
Proof.
  intros Hne. unfold validate; cbn [nth].
  change (170 =? 170) with true; cbn [negb].
  apply Z.eqb_neq in Hne. rewrite Hne. reflexivity.
Qed.

Lemma validate_good_checksum (b1 b2 b3 : Z) :
  validate [0xAA; b1; b2; b3; calc_cs b1 b2 b3] = Valid b1 b2 b3.
Proof. exact (validate_encoded b1 b2 b3). Qed.

(** The validator of the code and the one worded by the specification
    agree on every buffer: the checksum is only looked at once the sync
    byte is known to be 0xAA. *)
Lemma validate_refines (buffer : list Z) :
  validate buffer = spec_validate buffer.
Proof.
  unfold validate, spec_validate, spec_checksum.
  destruct (nth 0 buffer 0 =? 170) eqn:Hs; cbn [negb]; [| reflexivity].
  apply Z.eqb_eq in Hs. rewrite Hs, calc_cs_mod. reflexivity.
Qed.

(** A packet of either sensor program decodes to the reading it encodes. *)
Lemma sensor_packets_agree (mv temp_c : Z) :
  NMockSensor.buffer mv temp_c = MockSensor.buffer mv temp_c.
Proof. reflexivity. Qed.

Lemma voltage_mv_encoded (mv : Z) :
  0 <= mv < 65536 ->
  voltage_mv (Z.land (Z.shiftr mv 8) 0xFF) (Z.land mv 0xFF) = mv.
Proof.
  intros Hmv. unfold voltage_mv.
  change 0xFFFF with (Z.ones 16). change 0xFF with (Z.ones 8).
  apply Z.bits_inj'. intros n Hn.
  rewrite Z.land_spec, Z.lor_spec, Z.shiftl_spec, !Z.land_spec by lia.
  destruct (Z.ltb_spec n 16) as [Hlt | Hge].
  - rewrite (Z.ones_spec_low 16 n), andb_true_r by lia.
    destruct (Z.ltb_spec n 8) as [Hl8 | Hg8].
    + rewrite (Z.testbit_neg_r _ (n - 8)) by lia. cbn [orb andb].
      rewrite Z.ones_spec_low by lia. apply andb_true_r.
    + rewrite (Z.ones_spec_high 8 n) by lia. rewrite andb_false_r, orb_false_r.
      rewrite Z.shiftr_spec by lia. rewrite Z.ones_spec_low by lia.
      rewrite andb_true_r. f_equal. lia.
  - rewrite (Z.ones_spec_high 16 n), andb_false_r by lia.
    symmetry. apply (Z.bits_above_log2 mv n); [lia |].
    destruct (Z.eq_dec mv 0) as [-> | Hnz]; [cbn; lia |].
    apply Z.lt_le_trans with 16; [| lia].
    apply Z.log2_lt_pow2; lia.
Qed.

(** C1: the safety logic is an ordered first-match rule: above 60 degrees
    the status is the critical-temperature code whatever the voltage;
    otherwise below 3100 mV it is the low-voltage code; otherwise it is the
    OK code.  The three codes are distinct, so a reading that breaches both
    thresholds is never classified as low voltage. *)
Theorem status_first_match (temp mv : Z) :
  (60 < temp -> status temp mv = STATUS_CRIT_TEMP) /\
  (temp <= 60 -> mv < 3100 -> status temp mv = STATUS_WARN_LOW_VOLT) /\
  (temp <= 60 -> 3100 <= mv -> status temp mv = STATUS_OK) /\
  (60 < temp -> mv < 3100 -> status temp mv <> STATUS_WARN_LOW_VOLT) /\
  (status temp mv = STATUS_OK \/ status temp mv = STATUS_WARN_LOW_VOLT \/
   status temp mv = STATUS_CRIT_TEMP) /\
  STATUS_OK <> STATUS_WARN_LOW_VOLT /\ STATUS_OK <> STATUS_CRIT_TEMP /\
  STATUS_WARN_LOW_VOLT <> STATUS_CRIT_TEMP.
Proof.
  unfold status.
  destruct (Z.gtb_spec temp 60) as [Ht | Ht];
    destruct (Z.ltb_spec mv 3100) as [Hv | Hv];
    repeat split; intros; try lia; try reflexivity; try discriminate;
    auto.
Qed.

Lemma status_first_match_witness :
  status 65 3000 = STATUS_CRIT_TEMP /\ status 65 3000 <> STATUS_WARN_LOW_VOLT
  /\ status 30 3000 = STATUS_WARN_LOW_VOLT /\ status 45 3100 = STATUS_OK.
Proof.
  destruct (status_first_match 65 3000) as (Hc & _ & _ & Hn & _).
  destruct (status_first_match 30 3000) as (_ & Hw & _).
  destruct (status_first_match 45 3100) as (_ & _ & Ho & _).
  split; [apply Hc; lia |].
  split; [apply Hn; lia |].
  split; [apply Hw; lia | apply Ho; lia].
Defined.

Lemma calc_cs_flip (s b k : Z) :
  is_byte b -> 0 <= k < 8 ->
  Z.land (s + flip_bit k b) 0xFF <> Z.land (s + b) 0xFF.
Proof.
  intros Hb Hk. rewrite !land_0xFF.
  apply mod_sum_differs. now apply flip_bit_moves.
Qed.

(** C2: a packet built by the encoding rule passes the sync and checksum
    checks and yields its three payload bytes; with any single bit of
    byte 1, 2 or 3 inverted and byte 4 left as it was, the checksum check
    rejects it. *)
Theorem checksum_round_trip (b1 b2 b3 : Z) :
  is_byte b1 -> is_byte b2 -> is_byte b3 ->
  validate (MockSensor.encode b1 b2 b3) = Valid b1 b2 b3 /\
  forall (i : nat) (k : Z),
    (1 <= i <= 3)%nat -> 0 <= k < 8 ->
    validate (flip_at i k (MockSensor.encode b1 b2 b3)) = ChecksumError.
Proof.
  intros H1 H2 H3. split; [apply validate_encoded |].
  intros i k Hi Hk.
  assert (Hcases : i = 1%nat \/ i = 2%nat \/ i = 3%nat) by lia.
  destruct Hcases as [-> | [-> | ->]];
    unfold MockSensor.encode; cbn [flip_at];
    apply validate_bad_checksum; unfold calc_cs.
  - replace (170 + flip_bit k b1 + b2 + b3)
      with ((170 + b2 + b3) + flip_bit k b1) by lia.
    replace (170 + b1 + b2 + b3) with ((170 + b2 + b3) + b1) by lia.
    now apply calc_cs_flip.
  - replace (170 + b1 + flip_bit k b2 + b3)
      with ((170 + b1 + b3) + flip_bit k b2) by lia.
    replace (170 + b1 + b2 + b3) with ((170 + b1 + b3) + b2) by lia.
    now apply calc_cs_flip.
  - now apply calc_cs_flip.
Qed.

Lemma checksum_round_trip_witness :
  validate (MockSensor.encode 0x0C 0x1C 0x2D) = Valid 0x0C 0x1C 0x2D /\
  validate (flip_at 2 7 (MockSensor.encode 0x0C 0x1C 0x2D)) = ChecksumError.
Proof.
  assert (H : is_byte 0x0C /\ is_byte 0x1C /\ is_byte 0x2D)
    by (unfold is_byte; lia).
  destruct H as (H1 & H2 & H3).
  destruct (checksum_round_trip H1 H2 H3) as [Hv Hf].
  split; [exact Hv | apply Hf; lia].
Defined.

(** What the sensor sends for a 16-bit voltage and a temperature is
    accepted, and the gateway recovers that voltage. *)
Lemma sensor_packet_validates (mv temp_c : Z) :
  0 <= mv < 65536 ->
  exists volt_hi volt_lo,
    validate (MockSensor.buffer mv temp_c) = Valid volt_hi volt_lo temp_c /\
    voltage_mv volt_hi volt_lo = mv.
Proof.
  intros Hmv. eexists _, _. split.
  - unfold MockSensor.buffer. apply validate_encoded.
  - now apply voltage_mv_encoded.
Qed.

(** ** The outbound frame *)

(** C4: whatever the payload bytes and the status, the bytes handed to
    [sendto] are 13: the four bytes of the identifier 0x100 in the host's
    byte order, the length 8, voltage high, voltage low, temperature, the
    status code, and four zero bytes, with nothing in between; the status
    codes are 0, 1 and 2. *)
Theorem frame_layout (e : endianness) (volt_hi volt_lo temp st : Z) :
  let wire := frame_bytes e (frame volt_hi volt_lo temp st) in
  length wire = 13%nat /\
  firstn 4 wire = uint32_bytes e 0x100 /\
  uint32_bytes e 0x100
    = match e with LittleEndian => [0; 1; 0; 0] | BigEndian => [0; 0; 1; 0] end /\
  nth 4 wire 0 = 8 /\
  nth 5 wire 0 = volt_hi /\ nth 6 wire 0 = volt_lo /\ nth 7 wire 0 = temp /\
  nth 8 wire 0 = st /\
  skipn 9 wire = [0; 0; 0; 0] /\
  data (frame volt_hi volt_lo temp st)
    = [volt_hi; volt_lo; temp; st; 0; 0; 0; 0] /\
  STATUS_OK = 0x00 /\ STATUS_WARN_LOW_VOLT = 0x01 /\ STATUS_CRIT_TEMP = 0x02.
Proof. destruct e; cbv zeta; repeat split; reflexivity. Qed.

(** ** The scenario of the specification *)

(** C8, as stated, fails: the sum 0xAA + 0x0C + 0x1C + 0x2D is 255, so the
    recomputed checksum is 0xFF and not 0x07, and the packet ending in 0x07
    is rejected at the checksum check. *)
Lemma scenario_packet_rejected :
  calc_cs scenario_volt_hi scenario_volt_lo scenario_temp <> 0x07 /\
  validate scenario_packet <> Valid scenario_volt_hi scenario_volt_lo scenario_temp /\
  validate scenario_packet = ChecksumError.
Proof.
  split; [vm_compute; discriminate |].
  split; [vm_compute; discriminate | reflexivity].
Qed.

(** C8, amended: for 3100 mV and 45 degrees the checksum byte is 0xFF; the
    packet [0xAA, 0x0C, 0x1C, 0x2D, 0xFF] is what the sensor emits, it
    validates, the voltage is 3100, which is not below the threshold, the
    status is OK and the frame payload is [0x0C, 0x1C, 0x2D, 0, 0, 0, 0, 0]. *)
Theorem scenario_3100mV_45C :
  calc_cs scenario_volt_hi scenario_volt_lo scenario_temp = 0xFF /\
  sensor_packet_3100_45 = [0xAA; 0x0C; 0x1C; 0x2D; 0xFF] /\
  validate sensor_packet_3100_45 = Valid 0x0C 0x1C 0x2D /\
  voltage_mv 0x0C 0x1C = 3100 /\
  status 0x2D (voltage_mv 0x0C 0x1C) = STATUS_OK /\
  data (frame 0x0C 0x1C 0x2D (status 0x2D (voltage_mv 0x0C 0x1C)))
    = [0x0C; 0x1C; 0x2D; 0x00; 0; 0; 0; 0].
Proof. repeat split; reflexivity. Qed.

(** ** The checksum of the code and the checksum of the specification *)

(** C9: on a buffer whose byte 0 is 0xAA, the checksum computed from the
    constant 0xAA (the code) equals the one computed from byte 0 of the
    buffer (the specification), and so do the two validators. *)
Theorem checksum_constant_vs_sync_byte (buffer : list Z) :
  nth 0 buffer 0 = 0xAA ->
  calc_cs (nth 1 buffer 0) (nth 2 buffer 0) (nth 3 buffer 0)
    = spec_checksum buffer /\
  validate buffer = spec_validate buffer.
Proof.
  intros Hsync. split; [| apply validate_refines].
  unfold spec_checksum. rewrite Hsync. apply calc_cs_mod.
Qed.

Lemma checksum_constant_vs_sync_byte_witness :
  calc_cs 0x0C 0x1C 0x2D = spec_checksum [0xAA; 0x0C; 0x1C; 0x2D; 0xFF] /\
  validate [0xAA; 0x0C; 0x1C; 0x2D; 0xFF]
    = spec_validate [0xAA; 0x0C; 0x1C; 0x2D; 0xFF].
Proof.
  apply (checksum_constant_vs_sync_byte [0xAA; 0x0C; 0x1C; 0x2D; 0xFF]).
  reflexivity.
Defined.

(** Off the sync byte the two checksums do differ, which the validator
    never observes. *)
Lemma checksum_differs_without_sync :
  calc_cs 0 0 0 <> spec_checksum [0; 0; 0; 0; 0].
Proof. vm_compute. discriminate. Qed.

(** ** The reassembly loop *)

Section ReassemblyFacts.
Context {Src : Type} `{ByteSource Src}.

(** One turn of the loop of lines 113-124. *)
Lemma read_packet_step (s : Src) (buffer : list Z) (bytes_read : Z) :
  read_packet s buffer bytes_read =
  if bytes_read <? 5 then
    let '(result, bytes, s') := recv s (5 - bytes_read) in
    if result <=? 0 then
      (LinkLost s',
       [Recv (5 - bytes_read) result; Printf SensorDisconnected;
        CloseTcp; CloseUdp])
    else
      let (out, tr) :=
        read_packet s' (store buffer bytes_read bytes) (bytes_read + result) in
      (out, Recv (5 - bytes_read) result :: tr)
  else (Packet buffer s, []).
Proof.
  simp read_packet.
  destruct (Z_lt_dec bytes_read 5) as [Hlt | Hge]; cbn -[Z.sub Z.add].
  - destruct (Z.ltb_spec bytes_read 5); [| lia].
    destruct (recv s (5 - bytes_read)) as [[result bytes] s'];
      cbn -[Z.sub Z.add].
    destruct (Z_le_gt_dec result 0) as [Hle | Hgt]; cbn -[Z.sub Z.add];
      destruct (Z.leb_spec result 0); try lia; reflexivity.
  - destruct (Z.ltb_spec bytes_read 5); [lia | reflexivity].
Qed.


Lemma lost_tail_no_recv (pre : list event) len result post :
  lost_tail = pre ++ Recv len result :: post -> False.
Proof.
  unfold lost_tail.
  destruct pre as [| e0 [| e1 [| e2 [| e3 pre]]]]; discriminate.
Qed.

Lemma read_packet_shape (n : nat) :
  forall (s : Src) (buffer : list Z) (bytes_read : Z) out tr,
    (remaining bytes_read <= n)%nat ->
    read_packet s buffer bytes_read = (out, tr) ->
    (reads tr <= n)%nat /\ sends tr = [] /\
    match out with
    | Packet _ _ =>
        Forall positive_read tr /\ printed tr = [] /\
        5 <= bytes_read + consumed tr
    | LinkLost _ =>
        exists pre len result,
          tr = pre ++ Recv len result :: lost_tail /\ result <= 0 /\
          Forall positive_read pre
    end.
Proof.
  induction n as [| n IH]; intros s buffer k out tr Hn Heq;
    rewrite read_packet_step in Heq;
    remember (5 - k) as want eqn:Hwant;
    destruct (Z.ltb_spec k 5) as [Hlt | Hge];
    try (unfold remaining in Hn; lia).
  - injection Heq as <- <-. trace_simpl. repeat split; [lia | constructor | lia].
  - destruct (recv s want) as [[result bytes] s'].
    destruct (Z.leb_spec result 0) as [Hle | Hgt].
    + injection Heq as <- <-. trace_simpl. repeat split; [lia |].
      exists [], want, result. repeat split; [assumption | constructor].
    + destruct (read_packet s' (store buffer k bytes) (k + result))
        as [out' tr'] eqn:Hrec.
      injection Heq as <- <-.
      apply IH in Hrec; [| unfold remaining in *; lia].
      destruct Hrec as (Hreads & Hsends & Hout). trace_simpl.
      repeat split; [lia | assumption |].
      destruct out' as [s'' | buf s''].
      * destruct Hout as (pre & len & r & -> & Hr & Hpre).
        exists (Recv want result :: pre), len, r.
        repeat split; [assumption |]. constructor; [exact Hgt | assumption].
      * destruct Hout as (Hpos & Hprinted & Hsum).
        repeat split; [constructor; [exact Hgt | assumption] | assumption | lia].
  - injection Heq as <- <-. trace_simpl. repeat split; [lia | constructor | lia].
Qed.

Section WellBehaved.
Hypothesis recv_bounds : well_behaved.

Lemma read_packet_bounds (n : nat) :
  forall (s : Src) (buffer : list Z) (bytes_read : Z) out tr,
    (remaining bytes_read <= n)%nat -> bytes_read <= 5 ->
    read_packet s buffer bytes_read = (out, tr) ->
    (forall pre len result post,
        tr = pre ++ Recv len result :: post ->
        bytes_read + consumed pre < 5 /\
        len = 5 - (bytes_read + consumed pre) /\ result <= len) /\
    match out with
    | Packet _ _ => bytes_read + consumed tr = 5
    | LinkLost _ => bytes_read + consumed tr < 5
    end.
Proof.
  induction n as [| n IH]; intros s buffer k out tr Hn Hk Heq;
    rewrite read_packet_step in Heq;
    remember (5 - k) as want eqn:Hwant;
    destruct (Z.ltb_spec k 5) as [Hlt | Hge];
    try (unfold remaining in Hn; lia).
  - injection Heq as <- <-. trace_simpl. split; [| lia].
    intros [| ? ?] ? ? ? Hsplit; discriminate.
  - destruct (recv s want) as [[result bytes] s'] eqn:Hrecv.
    destruct (Z.leb_spec result 0) as [Hle | Hgt].
    + injection Heq as <- <-. trace_simpl. split; [| lia].
      intros pre len r post Hsplit.
      destruct pre as [| e0 pre]; cbn [app] in Hsplit.
      * injection Hsplit as <- <- _. trace_simpl. lia.
      * injection Hsplit as _ Hsplit. now apply lost_tail_no_recv in Hsplit.
    + destruct (recv_bounds _ _ Hrecv Hgt) as [Hupper Hlen].
      destruct (read_packet s' (store buffer k bytes) (k + result))
        as [out' tr'] eqn:Hrec.
      injection Heq as <- <-.
      apply IH in Hrec; [| unfold remaining in *; lia | lia].
      destruct Hrec as [Hsplits Hout]. split.
      * intros pre len r post Hsplit.
        destruct pre as [| e0 pre]; cbn [app] in Hsplit.
        -- injection Hsplit as <- <- _. trace_simpl. lia.
        -- injection Hsplit as <- Hsplit.
           destruct (Hsplits pre len r post Hsplit) as (Hb & Hl & Hr).
           trace_simpl. lia.
      * trace_simpl. destruct out'; lia.
  - injection Heq as <- <-. trace_simpl. split; [| lia].
    intros [| ? ?] ? ? ? Hsplit; discriminate.
Qed.

End WellBehaved.

End ReassemblyFacts.

Lemma consumed_app (tr1 tr2 : list event) :
  consumed (tr1 ++ tr2) = consumed tr1 + consumed tr2.
Proof.
  induction tr1 as [| e tr1 IH]; [reflexivity |].
  destruct e; cbn [app consumed]; lia.
Qed.

Lemma sends_app (tr1 tr2 : list event) :
  sends (tr1 ++ tr2) = sends tr1 ++ sends tr2.
Proof.
  induction tr1 as [| e tr1 IH]; [reflexivity |].
  destruct e; cbn [app sends]; now rewrite IH.
Qed.

Lemma printed_app (tr1 tr2 : list event) :
  printed (tr1 ++ tr2) = printed tr1 ++ printed tr2.
Proof.
  induction tr1 as [| e tr1 IH]; [reflexivity |].
  destruct e; cbn [app printed]; now rewrite IH.
Qed.

(** In a trace that ends in a failed read followed by the shutdown of
    lines 117-120, that read is the only one that is not positive. *)
Lemma first_lost_read (pre0 : list event) (e0 : event) :
  Forall positive_read pre0 ->
  forall pre len result post,
    pre0 ++ e0 :: lost_tail = pre ++ Recv len result :: post ->
    result <= 0 ->
    pre = pre0 /\ e0 = Recv len result /\ post = lost_tail.
Proof.
  induction pre0 as [| a pre0 IH]; intros Hpos pre len result post Heq Hle.
  - destruct pre as [| e pre]; cbn [app] in Heq.
    + injection Heq as -> <-. auto.
    + injection Heq as _ Heq. now apply lost_tail_no_recv in Heq.
  - apply Forall_cons_iff in Hpos. destruct Hpos as [Ha Hpos].
    destruct pre as [| e pre]; cbn [app] in Heq.
    + injection Heq as -> _. cbn in Ha. lia.
    + injection Heq as -> Heq.
      destruct (IH Hpos _ _ _ _ Heq Hle) as (-> & -> & ->). auto.
Qed.

Lemma no_lost_read (tr pre : list event) len result post :
  Forall positive_read tr -> tr = pre ++ Recv len result :: post ->
  result <= 0 -> False.
Proof.
  intros Hpos -> Hle. apply Forall_app in Hpos. destruct Hpos as [_ Hpos].
  apply Forall_cons_iff in Hpos. destruct Hpos as [Hr _]. cbn in Hr. lia.
Qed.

(** C10: with a source whose successful reads return between 1 and the
    requested number of bytes, the reassembly loop ends after at most five
    reads.  Before each read the bytes gathered so far are fewer than 5 and
    the read asks for exactly the missing ones; it returns no more than
    that, so the count grows by at least one and stays at most 5.  A read
    that returns zero or less is the last one.  The loop leaves with
    exactly 5 bytes gathered, or with the link lost. *)
Theorem read_loop_terminates {Src : Type} `{ByteSource Src} :
  well_behaved ->
  forall (s : Src) (buffer : list Z),
    let (out, tr) := read_packet s buffer 0 in
    (reads tr <= 5)%nat /\
    (forall pre len result post,
        tr = pre ++ Recv len result :: post ->
        consumed pre < 5 /\ len = 5 - consumed pre /\ result <= len /\
        (result <= 0 -> post = lost_tail /\ exists s', out = LinkLost s')) /\
    match out with
    | Packet _ _ => consumed tr = 5 /\ Forall positive_read tr
    | LinkLost _ =>
        consumed tr < 5 /\
        exists pre len result,
          tr = pre ++ Recv len result :: lost_tail /\ result <= 0
    end.
Proof.
  intros Hwb s buffer.
  destruct (read_packet s buffer 0) as [out tr] eqn:Heq.
  assert (Hrem : (remaining 0 <= 5)%nat) by (unfold remaining; lia).
  destruct (read_packet_shape _ _ _ Hrem Heq) as (Hreads & _ & Hshape).
  destruct (read_packet_bounds Hwb _ _ Hrem ltac:(lia) Heq) as [Hsplit Hsum].
  split; [exact Hreads |]. split.
  - intros pre len result post Htr.
    destruct (Hsplit _ _ _ _ Htr) as (Hb & Hl & Hr).
    split; [lia |]. split; [lia |]. split; [lia |].
    intros Hle. destruct out as [s' | buf s'].
    + destruct Hshape as (pre0 & len0 & r0 & Htr0 & _ & Hpos).
      rewrite Htr0 in Htr.
      destruct (@first_lost_read pre0 _ Hpos _ _ _ _ Htr Hle) as (_ & _ & ->).
      split; [reflexivity | now exists s'].
    + destruct Hshape as (Hpos & _). exfalso.
      exact (@no_lost_read _ _ _ _ _ Hpos Htr Hle).
  - destruct out as [s' | buf s'].
    + split; [lia |].
      destruct Hshape as (pre0 & len0 & r0 & Htr0 & Hle & _).
      now exists pre0, len0, r0.
    + destruct Hshape as (Hpos & _). split; [lia | exact Hpos].
Qed.

(** The scripted stream is such a source. *)
Lemma script_well_behaved : well_behaved (Src := list delivery).
Proof.
  intros s len result bytes s' Hrecv Hpos. cbn [recv script_source] in Hrecv.
  destruct s as [| [d |] s0]; cbn [script_recv] in Hrecv.
  - injection Hrecv as <- _ _. lia.
  - injection Hrecv as <- <- _. split; [| reflexivity].
    rewrite length_firstn in *. lia.
  - injection Hrecv as <- _ _. lia.
Qed.

Lemma read_loop_terminates_witness :
  let (out, tr) :=
    read_packet [Data [0xAA; 0x0C]; Data [0x1C; 0x2D; 0xFF; 0xAA]]
                [0; 0; 0; 0; 0] 0 in
  (reads tr <= 5)%nat /\
  (forall pre len result post,
      tr = pre ++ Recv len result :: post ->
      consumed pre < 5 /\ len = 5 - consumed pre /\ result <= len /\
      (result <= 0 -> post = lost_tail /\ exists s', out = LinkLost s')) /\
  match out with
  | Packet _ _ => consumed tr = 5 /\ Forall positive_read tr
  | LinkLost _ =>
      consumed tr < 5 /\
      exists pre len result,
        tr = pre ++ Recv len result :: lost_tail /\ result <= 0
  end.
Proof.
  exact (read_loop_terminates script_well_behaved
           [Data [0xAA; 0x0C]; Data [0x1C; 0x2D; 0xFF; 0xAA]]
           [0; 0; 0; 0; 0]).
Defined.

(** ** The main loop *)

Section BridgeFacts.
Context {Src Sink : Type} `{ByteSource Src} `{DatagramSink Sink}.
Variable host : endianness.

Lemma cycle_shape (st : state Src Sink) out tr :
  cycle host st = (out, tr) ->
  match out with
  | Exit code =>
      code = 1 /\ sends tr = [] /\
      exists pre len result,
        tr = pre ++ Recv len result :: lost_tail /\ result <= 0 /\
        Forall positive_read pre
  | Continue _ => Forall positive_read tr
  end.
Proof.
  unfold cycle. intros Heq.
  destruct (read_packet (sock_tcp st) (buffer st) 0) as [r rtr] eqn:Hread.
  assert (Hrem : (remaining 0 <= 5)%nat) by (unfold remaining; lia).
  destruct (read_packet_shape _ _ _ Hrem Hread) as (_ & Hsends & Hshape).
  destruct r as [s' | buf s'].
  - injection Heq as <- <-. auto.
  - destruct Hshape as (Hpos & _).
    destruct (validate buf) as [b0 | | volt_hi volt_lo temp].
    + injection Heq as <- <-. apply Forall_app. split; [assumption |].
      repeat constructor.
    + injection Heq as <- <-. apply Forall_app. split; [assumption |].
      repeat constructor.
    + destruct (sendto (sock_udp st) _) as [sent k'].
      injection Heq as <- <-. apply Forall_app. split; [assumption |].
      repeat constructor.
Qed.

(** A cycle that reaches [sendto] goes on to the status line and to the
    next iteration, whatever [sendto] returned. *)
Lemma cycle_after_send (st : state Src Sink) out tr dgram sent :
  cycle host st = (out, tr) -> In (Sendto dgram sent) tr ->
  exists st' pre volt_hi volt_lo temp,
    out = Continue st' /\
    tr = pre ++ [Sendto dgram sent;
                 Printf (RxTx (voltage_mv volt_hi volt_lo) temp
                           (status temp (voltage_mv volt_hi volt_lo)))] /\
    dgram = frame_bytes host
              (frame volt_hi volt_lo temp
                 (status temp (voltage_mv volt_hi volt_lo))) /\
    sends pre = [].
Proof.
  unfold cycle. intros Heq Hin.
  destruct (read_packet (sock_tcp st) (buffer st) 0) as [r rtr] eqn:Hread.
  assert (Hrem : (remaining 0 <= 5)%nat) by (unfold remaining; lia).
  destruct (read_packet_shape _ _ _ Hrem Hread) as (_ & Hsends & _).
  assert (Hnone : forall d r0, ~ In (Sendto d r0) rtr).
  { clear - Hsends. induction rtr as [| e rtr IH]; intros d r0 Hin;
      [exact Hin |].
    destruct Hin as [He | Hin]; [subst e; discriminate |].
    destruct e; cbn [sends] in Hsends; try discriminate;
      exact (IH Hsends _ _ Hin). }
  destruct r as [s' | buf s'].
  - injection Heq as <- <-. now apply Hnone in Hin.
  - destruct (validate buf) as [b0 | | volt_hi volt_lo temp].
    + injection Heq as <- <-. apply in_app_or in Hin.
      destruct Hin as [Hin | [Hin | []]]; [now apply Hnone in Hin |].
      discriminate.
    + injection Heq as <- <-. apply in_app_or in Hin.
      destruct Hin as [Hin | [Hin | []]]; [now apply Hnone in Hin |].
      discriminate.
    + destruct (sendto (sock_udp st) _) as [sent' k'].
      injection Heq as <- <-. apply in_app_or in Hin.
      destruct Hin as [Hin | [Hin | [Hin | []]]];
        [now apply Hnone in Hin | | discriminate].
      injection Hin as <- <-.
      eexists _, rtr, volt_hi, volt_lo, temp. repeat split. exact Hsends.
Qed.

(** Whatever an iteration sends is a 13-byte frame: identifier, length 8,
    payload, four zero bytes. *)
Lemma sent_datagram_layout (st : state Src Sink) out tr dgram sent :
  cycle host st = (out, tr) -> In (Sendto dgram sent) tr ->
  length dgram = 13%nat /\ firstn 4 dgram = uint32_bytes host 0x100 /\
  nth 4 dgram 0 = 8 /\ skipn 9 dgram = [0; 0; 0; 0].
Proof.
  intros Heq Hin.
  eapply cycle_after_send in Hin; [| exact Heq].
  destruct Hin as (_ & _ & volt_hi & volt_lo & temp & _ & _ & -> & _).
  destruct host; repeat split; reflexivity.
Qed.

Lemma bridge_shape (n : nat) :
  forall (st : state Src Sink) out tr,
    bridge host n st = (out, tr) ->
    match out with
    | Exit code =>
        code = 1 /\
        exists pre len result,
          tr = pre ++ Recv len result :: lost_tail /\ result <= 0 /\
          Forall positive_read pre
    | Continue _ => Forall positive_read tr
    end.
Proof.
  induction n as [| n IH]; intros st out tr Heq; cbn [bridge] in Heq.
  - injection Heq as <- <-. constructor.
  - destruct (cycle host st) as [o1 tr1] eqn:Hcycle.
    pose proof (cycle_shape _ Hcycle) as Hshape.
    destruct o1 as [code | st1].
    + injection Heq as <- <-. destruct Hshape as (Hc & _ & Hsplit). auto.
    + destruct (bridge host n st1) as [o2 tr2] eqn:Hrest.
      injection Heq as <- <-. apply IH in Hrest.
      destruct o2 as [code | st2].
      * destruct Hrest as (Hc & pre & len & r & -> & Hle & Hpos).
        split; [assumption |].
        exists (tr1 ++ pre), len, r. rewrite <- app_assoc.
        repeat split; [assumption |]. apply Forall_app. auto.
      * apply Forall_app. auto.
Qed.

(** Once an iteration has left [main], asking for more iterations changes
    nothing. *)
Lemma bridge_exit_stable (n m : nat) :
  forall (st : state Src Sink) code tr,
    bridge host n st = (Exit code, tr) ->
    bridge host (n + m) st = (Exit code, tr).
Proof.
  induction n as [| n IH]; intros st code tr Heq; cbn [bridge] in Heq.
  - discriminate.
  - cbn [Nat.add bridge].
    destruct (cycle host st) as [[c1 | st1] tr1]; [exact Heq |].
    destruct (bridge host n st1) as [[c2 | st2] tr2] eqn:Hrest;
      [| discriminate].
    injection Heq as <- <-. now rewrite (IH _ _ _ Hrest).
Qed.

Lemma cycle_ignores_sink (st1 st2 : state Src Sink) :
  sock_tcp st1 = sock_tcp st2 -> buffer st1 = buffer st2 ->
  same_progress (fst (cycle host st1)) (fst (cycle host st2)) /\
  map forget_sent (snd (cycle host st1))
    = map forget_sent (snd (cycle host st2)).
Proof.
  intros Hsrc Hbuf. unfold cycle. rewrite Hsrc, Hbuf.
  destruct (read_packet (sock_tcp st2) (buffer st2) 0) as [[s' | buf s'] rtr].
  - cbn. auto.
  - destruct (validate buf) as [b0 | | volt_hi volt_lo temp]; [cbn; auto ..|].
    destruct (sendto (sock_udp st1) _) as [sent1 k1].
    destruct (sendto (sock_udp st2) _) as [sent2 k2].
    cbn [fst snd same_progress sock_tcp buffer]. split; [auto |].
    rewrite !map_app. reflexivity.
Qed.

Lemma bridge_ignores_sink (n : nat) :
  forall st1 st2 : state Src Sink,
    sock_tcp st1 = sock_tcp st2 -> buffer st1 = buffer st2 ->
    same_progress (fst (bridge host n st1)) (fst (bridge host n st2)) /\
    map forget_sent (snd (bridge host n st1))
      = map forget_sent (snd (bridge host n st2)).
Proof.
  induction n as [| n IH]; intros st1 st2 Hsrc Hbuf; cbn [bridge].
  - cbn. auto.
  - destruct (cycle_ignores_sink st1 st2 Hsrc Hbuf) as [Hprog Htr].
    destruct (cycle host st1) as [[c1 | st1'] tr1];
      destruct (cycle host st2) as [[c2 | st2'] tr2];
      cbn [fst snd same_progress] in Hprog, Htr; try contradiction.
    + cbn [fst snd same_progress]. auto.
    + destruct Hprog as [Hsrc' Hbuf'].
      destruct (IH st1' st2' Hsrc' Hbuf') as [Hprog' Htr'].
      destruct (bridge host n st1') as [o1 t1].
      destruct (bridge host n st2') as [o2 t2].
      cbn [fst snd] in *. split; [assumption |].
      rewrite !map_app. congruence.
Qed.

End BridgeFacts.

Lemma printed_forget_sent (tr : list event) :
  printed (map forget_sent tr) = printed tr.
Proof.
  induction tr as [| e tr IH]; [reflexivity |].
  destruct e; cbn [map forget_sent printed]; now rewrite IH.
Qed.

Lemma sends_forget_sent (tr : list event) :
  sends (map forget_sent tr) = sends tr.
Proof.
  induction tr as [| e tr IH]; [reflexivity |].
  destruct e; cbn [map forget_sent sends]; now rewrite IH.
Qed.

Lemma cut_stream_run :
  bridge LittleEndian 3 cut_stream_state = (Exit 1, cut_stream_trace).
Proof. vm_compute. reflexivity. Qed.

(** C3: when a [recv] of the reassembly loop returns zero or less, [main]
    returns 1 right there: what follows that read in the trace is the
    message "Sensor disconnected" and the closing of both sockets, no
    [sendto], and no number of further iterations adds anything.  Leaving
    the loop happens in no other way: an exit has status 1 and its trace
    ends in such a read. *)
Theorem link_lost_terminates {Src Sink : Type} `{ByteSource Src}
    `{DatagramSink Sink} (host : endianness) (n : nat)
    (st : state Src Sink) out tr :
  bridge host n st = (out, tr) ->
  (forall pre len result post,
      tr = pre ++ Recv len result :: post -> result <= 0 ->
      out = Exit 1 /\ post = lost_tail /\ sends post = [] /\
      forall m, bridge host (n + m) st = (Exit 1, tr)) /\
  (forall code,
      out = Exit code ->
      code = 1 /\ code <> 0 /\
      exists pre len result,
        tr = pre ++ Recv len result :: lost_tail /\ result <= 0).
Proof.
  intros Heq. pose proof (bridge_shape _ _ _ Heq) as Hshape. split.
  - intros pre len result post Htr Hle.
    destruct out as [code | st'].
    + destruct Hshape as (-> & pre0 & len0 & r0 & Htr0 & _ & Hpos).
      rewrite Htr0 in Htr.
      destruct (@first_lost_read pre0 _ Hpos _ _ _ _ Htr Hle) as (_ & _ & ->).
      repeat split. intros m. now apply bridge_exit_stable.
    + exfalso. exact (@no_lost_read _ _ _ _ _ Hshape Htr Hle).
  - intros code ->. destruct Hshape as (-> & pre0 & len0 & r0 & Htr0 & Hle & _).
    repeat split; [lia |]. now exists pre0, len0, r0.
Qed.

Lemma link_lost_terminates_witness :
  (forall m,
      bridge LittleEndian (3 + m) cut_stream_state
      = (Exit 1, cut_stream_trace)) /\
  sends cut_stream_trace = [[0; 1; 0; 0; 8; 0x0C; 0x1C; 0x2D; 0; 0; 0; 0; 0]].
Proof.
  destruct (link_lost_terminates _ _ _ cut_stream_run) as [Hlost _].
  destruct (Hlost
              [Recv 5 2; Recv 3 3;
               Sendto [0; 1; 0; 0; 8; 0x0C; 0x1C; 0x2D; 0; 0; 0; 0; 0] (-1);
               Printf (RxTx 3100 45 STATUS_OK); Recv 5 1; Recv 4 1]
              3 0 lost_tail eq_refl ltac:(lia)) as (_ & _ & _ & Hmore).
  split; [exact Hmore | reflexivity].
Defined.

(** ** The outbound send *)

(** C7, as stated, fails: the value [sendto] returns is dropped, so a
    failed send leaves no message behind.  With [sendto] returning -1 the
    cycle prints the status line and nothing else, exactly what it prints
    when [sendto] returns 13. *)
Lemma send_failure_not_logged :
  snd (cycle LittleEndian failing_send_state)
  = [Recv 5 5;
     Sendto [0; 1; 0; 0; 8; 0x0C; 0x1C; 0x2D; 0; 0; 0; 0; 0] (-1);
     Printf (RxTx 3100 45 STATUS_OK)] /\
  printed (snd (cycle LittleEndian failing_send_state))
  = printed (snd (cycle LittleEndian working_send_state)).
Proof. split; vm_compute; reflexivity. Qed.

(** C7, amended: the value [sendto] returns is never looked at.  A cycle
    that reaches [sendto] prints the status line next and goes on to the
    following iteration whatever was returned; and two runs from the same
    stream and buffer, whatever their UDP sockets return, leave the loop or
    stay in it alike, with the same stream and buffer, and do the same
    reads, sends and prints. *)
Theorem send_result_ignored {Src Sink : Type} `{ByteSource Src}
    `{DatagramSink Sink} (host : endianness) :
  (forall (st : state Src Sink) out tr dgram sent,
      cycle host st = (out, tr) -> In (Sendto dgram sent) tr ->
      exists st' pre mv temp st8,
        out = Continue st' /\
        tr = pre ++ [Sendto dgram sent; Printf (RxTx mv temp st8)]) /\
  (forall (n : nat) (st1 st2 : state Src Sink),
      sock_tcp st1 = sock_tcp st2 -> buffer st1 = buffer st2 ->
      let (out1, tr1) := bridge host n st1 in
      let (out2, tr2) := bridge host n st2 in
      same_progress out1 out2 /\
      map forget_sent tr1 = map forget_sent tr2 /\
      printed tr1 = printed tr2 /\ sends tr1 = sends tr2).
Proof.
  split.
  - intros st out tr dgram sent Heq Hin.
    destruct (cycle_after_send _ _ _ _ Heq Hin)
      as (st' & pre & volt_hi & volt_lo & temp & Hout & Htr & _).
    eexists st', pre, _, _, _. split; eassumption.
  - intros n st1 st2 Hsrc Hbuf.
    destruct (bridge_ignores_sink host n st1 st2 Hsrc Hbuf) as [Hprog Htr].
    destruct (bridge host n st1) as [out1 tr1].
    destruct (bridge host n st2) as [out2 tr2].
    cbn [fst snd] in Hprog, Htr. repeat split; [assumption .. | |].
    + rewrite <- (printed_forget_sent tr1), Htr. apply printed_forget_sent.
    + rewrite <- (sends_forget_sent tr1), Htr. apply sends_forget_sent.
Qed.

Lemma send_result_ignored_witness :
  (exists st',
      fst (cycle LittleEndian failing_send_state) = Continue st') /\
  printed (snd (bridge LittleEndian 2 failing_send_state))
  = printed (snd (bridge LittleEndian 2 working_send_state)).
Proof.
  destruct (send_result_ignored (Src := list delivery) (Sink := list Z)
              LittleEndian) as [Hsend Hsame].
  split.
  - destruct (Hsend failing_send_state
                (fst (cycle LittleEndian failing_send_state))
                (snd (cycle LittleEndian failing_send_state))
                [0; 1; 0; 0; 8; 0x0C; 0x1C; 0x2D; 0; 0; 0; 0; 0] (-1))
      as (st' & _ & _ & _ & _ & Hout & _).
    + vm_compute. reflexivity.
    + vm_compute. right. left. reflexivity.
    + exists st'. exact Hout.
  - specialize (Hsame 2%nat failing_send_state working_send_state
                  eq_refl eq_refl).
    destruct (bridge LittleEndian 2 failing_send_state) as [out1 tr1].
    destruct (bridge LittleEndian 2 working_send_state) as [out2 tr2].
    cbn [snd]. apply Hsame.
Defined.

(** ** Reassembly from a scripted stream *)

Lemma store_length (buffer : list Z) (off : Z) (bytes : list Z) :
  0 <= off -> (Z.to_nat off + length bytes <= length buffer)%nat ->
  length (store buffer off bytes) = length buffer.
Proof.
  intros Hoff Hfit. unfold store.
  rewrite !length_app, length_firstn, length_skipn. lia.
Qed.

Lemma store_prefix (buffer : list Z) (off : Z) (bytes : list Z) :
  0 <= off -> (Z.to_nat off <= length buffer)%nat ->
  firstn (Z.to_nat (off + Z.of_nat (length bytes))) (store buffer off bytes)
  = firstn (Z.to_nat off) buffer ++ bytes.
Proof.
  intros Hoff Hfit. unfold store. rewrite app_assoc.
  assert (Hlen : length (firstn (Z.to_nat off) buffer ++ bytes)
                 = Z.to_nat (off + Z.of_nat (length bytes))).
  { rewrite length_app, length_firstn. lia. }
  rewrite firstn_app, Hlen, Nat.sub_diag, firstn_O, app_nil_r.
  apply firstn_all2. lia.
Qed.

Lemma reads_chunk_reads (chunks : list (list Z)) :
  forall k, reads (chunk_reads k chunks) = length chunks.
Proof.
  induction chunks as [| c chunks IH]; intros k; cbn [chunk_reads reads length];
    [reflexivity | now rewrite IH].
Qed.

Lemma read_packet_chunks (chunks : list (list Z)) :
  forall (k : Z) (buffer : list Z) (rest : list delivery),
    Forall (fun c => c <> []) chunks ->
    0 <= k -> k + Z.of_nat (length (concat chunks)) = 5 ->
    length buffer = 5%nat ->
    read_packet (map Data chunks ++ rest) buffer k
    = (Packet (firstn (Z.to_nat k) buffer ++ concat chunks) rest,
       chunk_reads k chunks).
Proof.
  induction chunks as [| c chunks IH]; intros k buffer rest Hne Hk Hsum Hbuf;
    rewrite read_packet_step; cbn [concat length] in Hsum.
  - destruct (Z.ltb_spec k 5); [lia |].
    cbn [map app concat chunk_reads]. rewrite app_nil_r, firstn_all2 by lia.
    reflexivity.
  - apply Forall_cons_iff in Hne. destruct Hne as [Hc Hne].
    rewrite length_app in Hsum.
    assert (Hpos : (0 < length c)%nat) by (destruct c; [congruence | cbn; lia]).
    destruct (Z.ltb_spec k 5); [| lia].
    cbn [map app recv script_source script_recv].
    rewrite firstn_all2, skipn_all2 by lia.
    destruct (Z.leb_spec (Z.of_nat (length c)) 0); [lia |].
    rewrite IH; try assumption; try lia.
    + rewrite store_prefix by lia.
      cbn [concat chunk_reads]. now rewrite <- app_assoc.
    + rewrite store_length; lia.
Qed.

(** The same, for chunks that may reach into the next packet: the loop
    takes the first bytes of the stream, as many as are missing, and leaves
    the rest of the stream for the next cycle. *)
Lemma read_packet_stream (n : nat) :
  forall (d : list Z) (k : Z) (buffer : list Z) (cs : list (list Z))
         (tail : list Z) (rest : list delivery),
    length d = n -> k + Z.of_nat n = 5 -> 0 <= k ->
    length buffer = 5%nat ->
    Forall (fun c => c <> []) cs -> concat cs = d ++ tail ->
    exists cs' tr,
      read_packet (map Data cs ++ rest) buffer k
      = (Packet (firstn (Z.to_nat k) buffer ++ d) (map Data cs' ++ rest), tr)
      /\ Forall (fun c => c <> []) cs' /\ concat cs' = tail.
Proof.
  induction n as [n IH] using lt_wf_ind.
  intros d k buffer cs tail rest Hd Hsum Hk Hbuf Hne Hcat.
  rewrite read_packet_step.
  destruct (Z.ltb_spec k 5) as [Hlt | Hge].
  - destruct cs as [| c cs0].
    { cbn [concat] in Hcat. symmetry in Hcat. apply app_eq_nil in Hcat.
      destruct Hcat as [-> _]. cbn in Hd. lia. }
    apply Forall_cons_iff in Hne. destruct Hne as [Hc Hne].
    assert (Hpos : (0 < length c)%nat) by (destruct c; [congruence | cbn; lia]).
    cbn [concat] in Hcat.
    cbn [map app recv script_source script_recv].
    replace (Z.to_nat (5 - k)) with n by lia.
    apply app_eq_app in Hcat. destruct Hcat as [l Hcat].
    destruct (Nat.leb_spec (length c) n) as [Hfit | Hover].
    + (* the chunk lies within the window *)
      assert (Hsplit : d = c ++ skipn (length c) d /\
                       concat cs0 = skipn (length c) d ++ tail).
      { destruct Hcat as [[Hcl Htl] | [Hdl Hcl]].
        - assert (l = []) as ->.
          { apply (f_equal (@length Z)) in Hcl. rewrite length_app in Hcl.
            apply length_zero_iff_nil. lia. }
          rewrite app_nil_r in Hcl. subst c.
          rewrite skipn_all, app_nil_r. cbn [app] in Htl. auto.
        - subst d. rewrite skipn_app, skipn_all, Nat.sub_diag. cbn [skipn app].
          auto. }
      destruct Hsplit as [Hdsplit Hcat0].
      set (d' := skipn (length c) d) in *.
      assert (Hd' : length d = (length c + length d')%nat)
        by (rewrite Hdsplit at 1; apply length_app).
      rewrite firstn_all2, skipn_all2 by lia.
      destruct (Z.leb_spec (Z.of_nat (length c)) 0); [lia |].
      destruct (IH (length d') ltac:(lia) d' (k + Z.of_nat (length c))
                  (store buffer k c) cs0 tail rest)
        as (cs' & tr & Hread & Hne' & Hcat'); try assumption; try lia.
      { rewrite store_length; lia. }
      rewrite Hread. exists cs', (Recv (5 - k) (Z.of_nat (length c)) :: tr).
      split; [| auto].
      rewrite store_prefix by lia. rewrite <- app_assoc, <- Hdsplit.
      reflexivity.
    + (* the chunk reaches into the next window *)
      destruct Hcat as [[Hcl Htl] | [Hdl Hcl]].
      2: { apply (f_equal (@length Z)) in Hdl. rewrite length_app in Hdl. lia. }
      subst c tail n. rewrite length_app in Hover.
      rewrite firstn_app, skipn_app, Nat.sub_diag, firstn_all, skipn_all.
      cbn [firstn skipn app]. rewrite app_nil_r.
      destruct l as [| x l]; [cbn in Hover; lia |].
      destruct (Z.leb_spec (Z.of_nat (length d)) 0); [lia |].
      destruct (IH 0%nat ltac:(lia) [] (k + Z.of_nat (length d))
                  (store buffer k d) ((x :: l) :: cs0)
                  ((x :: l) ++ concat cs0) rest)
        as (cs' & tr & Hread & Hne' & Hcat'); try reflexivity; try lia.
      { rewrite store_length; lia. }
      { constructor; [discriminate | assumption]. }
      cbn [map app] in Hread. cbn [app]. rewrite Hread.
      exists cs', (Recv (5 - k) (Z.of_nat (length d)) :: tr).
      split; [| auto].
      rewrite store_prefix by lia. now rewrite app_nil_r.
  - assert (n = 0%nat) as -> by lia.
    apply length_zero_iff_nil in Hd. subst d.
    exists cs, []. rewrite app_nil_r, firstn_all2 by lia. auto.
Qed.

Lemma chunks_count (chunks : list (list Z)) :
  Forall (fun c => c <> []) chunks ->
  (length chunks <= length (concat chunks))%nat.
Proof.
  induction 1 as [| c chunks Hc _ IH]; cbn [concat length]; [lia |].
  rewrite length_app. destruct c; [congruence | cbn [length]; lia].
Qed.

(** C6: however the five bytes of a packet are cut into successive
    non-empty deliveries (one, two, ... up to five of them, cut anywhere),
    the loop makes one read per delivery and hands on the same five bytes
    in the same order, leaving the rest of the stream untouched. *)
Theorem reassembly_independent_of_chunking
    (pkt : list Z) (chunks : list (list Z)) (rest : list delivery)
    (buffer : list Z) :
  length pkt = 5%nat -> length buffer = 5%nat ->
  Forall (fun c => c <> []) chunks -> concat chunks = pkt ->
  read_packet (map Data chunks ++ rest) buffer 0
  = (Packet pkt rest, chunk_reads 0 chunks) /\
  reads (chunk_reads 0 chunks) = length chunks /\
  (1 <= length chunks <= 5)%nat.
Proof.
  intros Hpkt Hbuf Hne Hcat. split; [| split].
  - rewrite read_packet_chunks; try assumption; try lia.
    + now rewrite Hcat.
    + rewrite Hcat. lia.
  - apply reads_chunk_reads.
  - pose proof (chunks_count Hne) as Hcount. rewrite Hcat in Hcount.
    split; [| lia].
    destruct chunks; [cbn in Hcat; subst pkt; discriminate | cbn; lia].
Qed.

Lemma reassembly_independent_of_chunking_witness :
  fst (read_packet [Data [0xAA; 0x0C; 0x1C; 0x2D; 0xFF]] [0; 0; 0; 0; 0] 0)
  = Packet [0xAA; 0x0C; 0x1C; 0x2D; 0xFF] [] /\
  fst (read_packet [Data [0xAA; 0x0C; 0x1C]; Data [0x2D; 0xFF]]
                   [0; 0; 0; 0; 0] 0)
  = Packet [0xAA; 0x0C; 0x1C; 0x2D; 0xFF] [] /\
  fst (read_packet [Data [0xAA]; Data [0x0C]; Data [0x1C]; Data [0x2D];
                    Data [0xFF]] [0; 0; 0; 0; 0] 0)
  = Packet [0xAA; 0x0C; 0x1C; 0x2D; 0xFF] [].
Proof.
  assert (Hchunks : forall chunks,
             Forall (fun c : list Z => c <> []) chunks ->
             concat chunks = [0xAA; 0x0C; 0x1C; 0x2D; 0xFF] ->
             fst (read_packet (map Data chunks ++ []) [0; 0; 0; 0; 0] 0)
             = Packet [0xAA; 0x0C; 0x1C; 0x2D; 0xFF] []).
  { intros chunks Hne Hcat.
    destruct (@reassembly_independent_of_chunking
                [0xAA; 0x0C; 0x1C; 0x2D; 0xFF] chunks [] [0; 0; 0; 0; 0]
                eq_refl eq_refl Hne Hcat) as [Hread _].
    now rewrite Hread. }
  split; [| split].
  - apply (Hchunks [[0xAA; 0x0C; 0x1C; 0x2D; 0xFF]]);
      [repeat constructor; discriminate | reflexivity].
  - apply (Hchunks [[0xAA; 0x0C; 0x1C]; [0x2D; 0xFF]]);
      [repeat constructor; discriminate | reflexivity].
  - apply (Hchunks [[0xAA]; [0x0C]; [0x1C]; [0x2D]; [0xFF]]);
      [repeat constructor; discriminate | reflexivity].
Defined.

(** ** A corrupted window *)

Section WindowFacts.
Context {Src Sink : Type} `{ByteSource Src} `{DatagramSink Sink}.
Variable host : endianness.

(** Every iteration starts by asking for five bytes. *)
Lemma cycle_first_read (st : state Src Sink) out tr :
  cycle host st = (out, tr) -> exists result tr', tr = Recv 5 result :: tr'.
Proof.
  unfold cycle. rewrite read_packet_step.
  change (0 <? 5) with true. cbv iota. change (5 - 0) with 5.
  destruct (recv (sock_tcp st) 5) as [[result bytes] s'].
  destruct (result <=? 0).
  - intros Heq. injection Heq as _ <-. eauto.
  - destruct (read_packet s' _ _) as [[s'' | buf s''] rtr].
    + intros Heq. injection Heq as _ <-. eauto.
    + destruct (validate buf); [| | destruct (sendto _ _)];
        intros Heq; injection Heq as _ <-; cbn [app]; eauto.
Qed.

(** An iteration that stays in the loop took exactly five bytes from the
    stream, and did with them what the validator says. *)
Lemma cycle_window (st st' : state Src Sink) tr :
  well_behaved -> cycle host st = (Continue st', tr) ->
  consumed tr = 5 /\
  match validate (buffer st') with
  | SyncError b0 => sends tr = [] /\ printed tr = [SyncByteError b0]
  | ChecksumError => sends tr = [] /\ printed tr = [ChecksumMismatch]
  | Valid volt_hi volt_lo temp =>
      let mv := voltage_mv volt_hi volt_lo in
      sends tr = [frame_bytes host (frame volt_hi volt_lo temp (status temp mv))]
      /\ printed tr = [RxTx mv temp (status temp mv)]
  end.
Proof.
  intros Hwb. unfold cycle.
  destruct (read_packet (sock_tcp st) (buffer st) 0) as [r rtr] eqn:Hread.
  assert (Hrem : (remaining 0 <= 5)%nat) by (unfold remaining; lia).
  destruct (read_packet_shape _ _ _ Hrem Hread) as (_ & Hsends & Hshape).
  destruct (read_packet_bounds Hwb _ _ Hrem ltac:(lia) Hread) as [_ Hsum].
  destruct r as [s' | buf s']; [discriminate |].
  destruct Hshape as (_ & Hprinted & _).
  destruct (validate buf) as [b0 | | volt_hi volt_lo temp] eqn:Hv;
    [| | destruct (sendto (sock_udp st) _) as [sent k']];
    intros Heq; injection Heq as <- <-; cbn [buffer]; rewrite Hv;
    rewrite consumed_app, sends_app, printed_app, Hsends, Hprinted;
    cbn [consumed sends printed app]; (split; [lia | auto]).
Qed.

End WindowFacts.

Lemma concat_nil_nonempty (cs : list (list Z)) :
  Forall (fun c => c <> []) cs -> concat cs = [] -> cs = [].
Proof.
  intros Hne Hcat. destruct cs as [| c cs]; [reflexivity |].
  apply Forall_cons_iff in Hne. destruct Hne as [Hc _].
  cbn [concat] in Hcat. apply app_eq_nil in Hcat. tauto.
Qed.

(** One iteration over a scripted stream that starts with the five bytes
    [w]: they end up in the buffer, and the stream is left with what
    follows them. *)
Lemma read_window (w tail buffer0 : list Z)
    (chunks : list (list Z)) :
  length w = 5%nat -> length buffer0 = 5%nat ->
  Forall (fun c => c <> []) chunks -> concat chunks = w ++ tail ->
  exists chunks' tr,
    read_packet (map Data chunks) buffer0 0 = (Packet w (map Data chunks'), tr)
    /\ Forall (fun c => c <> []) chunks' /\ concat chunks' = tail.
Proof.
  intros Hw Hbuf Hne Hcat.
  destruct (@read_packet_stream 5 w 0 buffer0 chunks tail [])
    as (cs' & tr & Hread & Hne' & Hcat'); try assumption; try lia.
  rewrite !app_nil_r in Hread. cbn [Z.to_nat firstn app] in Hread.
  now exists cs', tr.
Qed.

(** C5: a window that fails validation is used up whole.  In general, an
    iteration that ends in a sync or checksum error has taken exactly five
    bytes from the stream and sent nothing, and the next iteration starts
    by asking for five bytes.  For the ten-byte stream made of a packet
    with a wrong checksum followed by a packet with the right one,
    delivered in any non-empty pieces: the first iteration takes five
    bytes, prints the checksum warning and sends nothing; the second takes
    the other five, validates them and sends one frame; ten bytes have
    been taken and the stream is used up. *)
Theorem bad_window_is_discarded {Sink : Type} `{DatagramSink Sink}
    (host : endianness) (V1 V2 T1 T2 CSbad : Z) (chunks : list (list Z))
    (k : Sink) (buffer0 : list Z) :
  CSbad <> calc_cs V1 V2 T1 ->
  Forall (fun c => c <> []) chunks ->
  concat chunks
  = [0xAA; V1; V2; T1; CSbad] ++ [0xAA; V1; V2; T2; calc_cs V1 V2 T2] ->
  length buffer0 = 5%nat ->
  (forall (Src : Type) (HS : ByteSource Src),
      well_behaved ->
      forall (st st' : state Src Sink) tr,
        cycle host st = (Continue st', tr) ->
        (validate (buffer st') = ChecksumError \/
         exists b0, validate (buffer st') = SyncError b0) ->
        consumed tr = 5 /\ sends tr = [] /\
        forall out2 tr2,
          cycle host st' = (out2, tr2) ->
          exists result tr', tr2 = Recv 5 result :: tr') /\
  exists st1 tr1 st2 tr2,
    cycle host {| sock_tcp := map Data chunks; sock_udp := k;
                  buffer := buffer0 |} = (Continue st1, tr1) /\
    buffer st1 = [0xAA; V1; V2; T1; CSbad] /\
    consumed tr1 = 5 /\ sends tr1 = [] /\ printed tr1 = [ChecksumMismatch] /\
    cycle host st1 = (Continue st2, tr2) /\
    buffer st2 = [0xAA; V1; V2; T2; calc_cs V1 V2 T2] /\
    consumed tr2 = 5 /\
    sends tr2
    = [frame_bytes host (frame V1 V2 T2 (status T2 (voltage_mv V1 V2)))] /\
    printed tr2
    = [RxTx (voltage_mv V1 V2) T2 (status T2 (voltage_mv V1 V2))] /\
    sock_tcp st2 = [] /\
    bridge host 2 {| sock_tcp := map Data chunks; sock_udp := k;
                     buffer := buffer0 |} = (Continue st2, tr1 ++ tr2) /\
    consumed (tr1 ++ tr2) = 10 /\
    length (sends (tr1 ++ tr2)) = 1%nat.
Proof.
  intros Hbad Hne Hcat Hbuf. split.
  - intros Src HS Hwb st st' tr Hcycle Hfail.
    destruct (cycle_window host _ Hwb Hcycle) as [Hsum Hdone].
    split; [exact Hsum |]. split.
    + destruct Hfail as [Hv | [b0 Hv]]; rewrite Hv in Hdone; tauto.
    + intros out2 tr2 Hnext. exact (cycle_first_read _ _ Hnext).
  - set (w1 := [0xAA; V1; V2; T1; CSbad]) in *.
    set (w2 := [0xAA; V1; V2; T2; calc_cs V1 V2 T2]) in *.
    destruct (@read_window w1 w2 buffer0 chunks eq_refl Hbuf Hne Hcat)
      as (cs1 & rtr1 & Hread1 & Hne1 & Hcat1).
    rewrite <- (app_nil_r w2) in Hcat1.
    destruct (@read_window w2 [] w1 cs1 eq_refl eq_refl Hne1 Hcat1)
      as (cs2 & rtr2 & Hread2 & Hne2 & Hcat2).
    apply (concat_nil_nonempty Hne2) in Hcat2. subst cs2.
    destruct (sendto k (frame_bytes host
                          (frame V1 V2 T2 (status T2 (voltage_mv V1 V2)))))
      as [sent k'] eqn:Hsend.
    set (st1 := {| sock_tcp := map Data cs1; sock_udp := k; buffer := w1 |}).
    set (st2 := {| sock_tcp := map Data []; sock_udp := k'; buffer := w2 |}).
    assert (Hc1 : cycle host {| sock_tcp := map Data chunks; sock_udp := k;
                                buffer := buffer0 |}
                  = (Continue st1, rtr1 ++ [Printf ChecksumMismatch])).
    { unfold cycle. cbn [sock_tcp sock_udp buffer]. rewrite Hread1.
      unfold w1. rewrite validate_bad_checksum by congruence. reflexivity. }
    assert (Hc2 : cycle host st1
                  = (Continue st2,
                     rtr2 ++ [Sendto (frame_bytes host
                                        (frame V1 V2 T2
                                           (status T2 (voltage_mv V1 V2))))
                                sent;
                              Printf (RxTx (voltage_mv V1 V2) T2
                                        (status T2 (voltage_mv V1 V2)))])).
    { unfold cycle, st1. cbn [sock_tcp sock_udp buffer]. rewrite Hread2.
      unfold w2. rewrite validate_good_checksum. cbv zeta.
      rewrite Hsend. reflexivity. }
    destruct (cycle_window host _ script_well_behaved Hc1) as [Hsum1 Hdone1].
    destruct (cycle_window host _ script_well_behaved Hc2) as [Hsum2 Hdone2].
    cbn [buffer st1 st2] in Hdone1, Hdone2. unfold w1, w2 in Hdone1, Hdone2.
    rewrite validate_bad_checksum in Hdone1 by congruence.
    rewrite validate_good_checksum in Hdone2. cbv zeta in Hdone2.
    destruct Hdone1 as [Hs1 Hp1]. destruct Hdone2 as [Hs2 Hp2].
    eexists st1, _, st2, _.
    split; [exact Hc1 |]. split; [reflexivity |].
    split; [exact Hsum1 |]. split; [exact Hs1 |]. split; [exact Hp1 |].
    split; [exact Hc2 |]. split; [reflexivity |].
    split; [exact Hsum2 |]. split; [exact Hs2 |]. split; [exact Hp2 |].
    split; [reflexivity |]. split.
    + cbn [bridge]. rewrite Hc1, Hc2. now rewrite app_nil_r.
    + rewrite consumed_app, sends_app, Hsum1, Hsum2, Hs1, Hs2. split; reflexivity.
Qed.

Lemma bad_window_is_discarded_witness :
  exists st2 tr,
    bridge BigEndian 2
      {| sock_tcp := map Data [[0xAA; 0x0C; 0x1C]; [0x2D; 0x00; 0xAA; 0x0C];
                               [0x1C; 0x1E; 0xF0]];
         sock_udp := @nil Z;
         buffer := [0; 0; 0; 0; 0] |} = (Continue st2, tr) /\
    consumed tr = 10 /\ length (sends tr) = 1%nat /\ sock_tcp st2 = [].
Proof.
  destruct (@bad_window_is_discarded (list Z) _ BigEndian
              0x0C 0x1C 0x2D 0x1E 0x00
              [[0xAA; 0x0C; 0x1C]; [0x2D; 0x00; 0xAA; 0x0C]; [0x1C; 0x1E; 0xF0]]
              [] [0; 0; 0; 0; 0])
    as [_ (st1 & tr1 & st2 & tr2 & Hrun)].
  - vm_compute. discriminate.
  - repeat constructor; discriminate.
  - vm_compute. reflexivity.
  - reflexivity.
  - destruct Hrun as (_ & _ & _ & _ & _ & _ & _ & _ & _ & _ & Hsrc & Hrun
                      & Hsum & Hone).
    exists st2, (tr1 ++ tr2). auto.
Defined.

(** * Further properties of the code *)

(** ** The voltage field *)

Lemma voltage_mv_all_bytes :
  forallb (fun hi =>
             forallb (fun lo => voltage_mv hi lo =? 256 * hi + lo)
                     (bytes_below 256))
          (bytes_below 256) = true.
Proof. vm_compute. reflexivity. Qed.

(** X1: the voltage the gateway composes from two bytes is 256 times the
    high byte plus the low byte, a 16-bit value, and splitting it the way
    the sensor does gives the two bytes back. *)
Theorem voltage_mv_big_endian (volt_hi volt_lo : Z) :
  is_byte volt_hi -> is_byte volt_lo ->
  voltage_mv volt_hi volt_lo = 256 * volt_hi + volt_lo /\
  0 <= voltage_mv volt_hi volt_lo < 65536 /\
  Z.land (Z.shiftr (voltage_mv volt_hi volt_lo) 8) 0xFF = volt_hi /\
  Z.land (voltage_mv volt_hi volt_lo) 0xFF = volt_lo.
Proof.
  intros Hhi Hlo.
  assert (Hval : voltage_mv volt_hi volt_lo = 256 * volt_hi + volt_lo).
  { pose proof voltage_mv_all_bytes as Hall.
    rewrite forallb_forall in Hall.
    specialize (Hall volt_hi (bytes_below_spec 256 Hhi)).
    rewrite forallb_forall in Hall.
    specialize (Hall volt_lo (bytes_below_spec 256 Hlo)).
    now apply Z.eqb_eq. }
  unfold is_byte in Hhi, Hlo. rewrite Hval, !land_0xFF.
  rewrite Z.shiftr_div_pow2 by lia. change (2 ^ 8) with 256.
  replace ((256 * volt_hi + volt_lo) / 256) with volt_hi
    by (apply Z.div_unique with volt_lo; lia).
  repeat split; try lia.
  - apply Z.mod_small. lia.
  - symmetry. apply Z.mod_unique with volt_hi; lia.
Qed.

Lemma voltage_mv_big_endian_witness :
  voltage_mv 0x0C 0x1C = 3100 /\
  Z.land (Z.shiftr (voltage_mv 0x0C 0x1C) 8) 0xFF = 0x0C.
Proof.
  assert (Hhi : is_byte 0x0C) by (unfold is_byte; lia).
  assert (Hlo : is_byte 0x1C) by (unfold is_byte; lia).
  destruct (voltage_mv_big_endian Hhi Hlo) as (Hv & _ & Hsplit & _).
  split; [exact Hv | exact Hsplit].
Defined.

(** ** What the validator accepts *)

(** X2: a five-byte buffer is accepted with payload (high, low,
    temperature) exactly when it is the packet the sensor encodes for that
    payload. *)
Theorem validate_accepts_exactly_encoded
    (buffer : list Z) (volt_hi volt_lo temp : Z) :
  length buffer = 5%nat ->
  (validate buffer = Valid volt_hi volt_lo temp <->
   buffer = MockSensor.encode volt_hi volt_lo temp).
Proof.
  intros Hlen. split.
  - destruct buffer as [| b0 [| b1 [| b2 [| b3 [| b4 [| ? ?]]]]]];
      try discriminate.
    unfold validate, MockSensor.encode. cbn [nth].
    destruct (Z.eqb_spec b0 170) as [-> | Hne]; cbn [negb]; [| discriminate].
    destruct (Z.eqb_spec (calc_cs b1 b2 b3) b4) as [<- | Hcs]; cbn [negb];
      [| discriminate].
    intros Hv. injection Hv as -> -> ->. reflexivity.
  - intros ->. apply validate_encoded.
Qed.

Lemma validate_accepts_exactly_encoded_witness :
  validate [0xAA; 0x0C; 0x1C; 0x2D; 0xFF] = Valid 0x0C 0x1C 0x2D <->
  [0xAA; 0x0C; 0x1C; 0x2D; 0xFF] = MockSensor.encode 0x0C 0x1C 0x2D.
Proof.
  apply (@validate_accepts_exactly_encoded [0xAA; 0x0C; 0x1C; 0x2D; 0xFF]).
  reflexivity.
Defined.

Lemma byte_change_moves_sum (s b x : Z) :
  is_byte b -> is_byte x -> x <> b ->
  Z.land (s + x) 0xFF <> Z.land (s + b) 0xFF.
Proof.
  unfold is_byte. intros Hb Hx Hne. rewrite !land_0xFF.
  apply mod_sum_differs. intros Hmod.
  apply Z.mod_divide in Hmod; [| lia]. destruct Hmod as [q Hq]. lia.
Qed.

(** X3: replacing any one of the five bytes of an encoded packet by a
    different byte value makes the gateway reject it: as a sync error when
    it is byte 0, as a checksum error otherwise. *)
Theorem single_byte_corruption_rejected (b1 b2 b3 x : Z) (i : nat) :
  is_byte b1 -> is_byte b2 -> is_byte b3 -> is_byte x ->
  (i < 5)%nat -> x <> nth i (MockSensor.encode b1 b2 b3) 0 ->
  validate (put_at i x (MockSensor.encode b1 b2 b3))
  = match i with O => SyncError x | _ => ChecksumError end.
Proof.
  intros H1 H2 H3 Hx Hi Hne.
  destruct i as [| [| [| [| [| i]]]]]; try lia;
    unfold MockSensor.encode in *; cbn [put_at nth] in *.
  - unfold validate. cbn [nth].
    destruct (Z.eqb_spec x 170); [contradiction | reflexivity].
  - apply validate_bad_checksum. unfold calc_cs.
    replace (170 + x + b2 + b3) with ((170 + b2 + b3) + x) by lia.
    replace (170 + b1 + b2 + b3) with ((170 + b2 + b3) + b1) by lia.
    now apply byte_change_moves_sum.
  - apply validate_bad_checksum. unfold calc_cs.
    replace (170 + b1 + x + b3) with ((170 + b1 + b3) + x) by lia.
    replace (170 + b1 + b2 + b3) with ((170 + b1 + b3) + b2) by lia.
    now apply byte_change_moves_sum.
  - apply validate_bad_checksum. unfold calc_cs.
    now apply byte_change_moves_sum.
  - apply validate_bad_checksum. unfold calc_cs. congruence.
Qed.

Lemma single_byte_corruption_rejected_witness :
  validate (put_at 3 0x2E (MockSensor.encode 0x0C 0x1C 0x2D)) = ChecksumError /\
  validate (put_at 0 0xAB (MockSensor.encode 0x0C 0x1C 0x2D)) = SyncError 0xAB.
Proof.
  split.
  - apply (@single_byte_corruption_rejected 0x0C 0x1C 0x2D 0x2E 3);
      unfold is_byte; try lia. vm_compute. discriminate.
  - apply (@single_byte_corruption_rejected 0x0C 0x1C 0x2D 0xAB 0);
      unfold is_byte; try lia. vm_compute. discriminate.
Defined.

(** X4: the checksum only sees the sum of the three payload bytes modulo
    256.  A packet carrying the checksum of another payload is accepted
    exactly when the two payloads have the same sum modulo 256; so a packet
    whose high and low voltage bytes have changed places is accepted, with
    the wrong voltage. *)
Theorem checksum_sees_only_the_sum (a b c a' b' c' : Z) :
  (validate [0xAA; a; b; c; calc_cs a' b' c'] = Valid a b c <->
   (a + b + c) mod 256 = (a' + b' + c') mod 256) /\
  ((a + b + c) mod 256 <> (a' + b' + c') mod 256 ->
   validate [0xAA; a; b; c; calc_cs a' b' c'] = ChecksumError) /\
  validate [0xAA; b; a; c; calc_cs a b c] = Valid b a c.
Proof.
  assert (Hsum : forall x y z x' y' z',
             calc_cs x y z = calc_cs x' y' z' <->
             (x + y + z) mod 256 = (x' + y' + z') mod 256).
  { intros. rewrite !calc_cs_mod.
    replace (170 + x + y + z) with (170 + (x + y + z)) by lia.
    replace (170 + x' + y' + z') with (170 + (x' + y' + z')) by lia.
    split; intros Heq.
    - rewrite <- (Z.add_simpl_l 170 (x + y + z)).
      rewrite <- (Z.add_simpl_l 170 (x' + y' + z')).
      rewrite Zminus_mod, Heq, <- Zminus_mod. reflexivity.
    - rewrite Zplus_mod, Heq, <- Zplus_mod. reflexivity. }
  split; [| split].
  - rewrite <- Hsum. split.
    + unfold validate. cbn [nth]. change (170 =? 170) with true. cbn [negb].
      destruct (Z.eqb_spec (calc_cs a b c) (calc_cs a' b' c')); cbn [negb];
        [auto | discriminate].
    + intros <-. apply validate_good_checksum.
  - intros Hne. apply validate_bad_checksum. now rewrite Hsum.
  - replace (calc_cs a b c) with (calc_cs b a c);
      [apply validate_good_checksum |].
    apply Hsum. f_equal. lia.
Qed.

Lemma checksum_sees_only_the_sum_witness :
  validate [0xAA; 0x1C; 0x0C; 0x2D; 0xFF] = Valid 0x1C 0x0C 0x2D /\
  validate [0xAA; 0x0C; 0x1C; 0x2E; 0xFF] = ChecksumError.
Proof.
  destruct (checksum_sees_only_the_sum 0x0C 0x1C 0x2E 0x0C 0x1C 0x2D)
    as (_ & Hbad & _).
  destruct (checksum_sees_only_the_sum 0x0C 0x1C 0x2D 0x0C 0x1C 0x2D)
    as (_ & _ & Hswap).
  split; [exact Hswap | apply Hbad; vm_compute; discriminate].
Defined.

(** ** The gateway on a whole stream *)

Lemma bridge_add {Src Sink : Type} `{ByteSource Src} `{DatagramSink Sink}
    (host : endianness) (n m : nat) :
  forall st : state Src Sink,
    bridge host (n + m) st
    = match bridge host n st with
      | (Exit code, tr) => (Exit code, tr)
      | (Continue st', tr) =>
          let (out, tr') := bridge host m st' in (out, tr ++ tr')
      end.
Proof.
  induction n as [| n IH]; intros st; cbn [Nat.add bridge].
  - now destruct (bridge host m st).
  - destruct (cycle host st) as [[code | st1] tr1]; [reflexivity |].
    rewrite IH.
    destruct (bridge host n st1) as [[code | st2] tr2]; [reflexivity |].
    destruct (bridge host m st2) as [out tr3]. now rewrite app_assoc.
Qed.

Lemma consumed_chunk_reads (chunks : list (list Z)) :
  forall k,
    consumed (chunk_reads k chunks) = Z.of_nat (length (concat chunks)) /\
    sends (chunk_reads k chunks) = [] /\ printed (chunk_reads k chunks) = [].
Proof.
  induction chunks as [| c chunks IH]; intros k;
    cbn [chunk_reads consumed sends printed concat length]; [auto |].
  destruct (IH (k + Z.of_nat (length c))) as (-> & -> & ->).
  rewrite length_app. repeat split. lia.
Qed.

(** A stream that ends before the window is full. *)
Lemma read_packet_short (chunks : list (list Z)) :
  forall (k : Z) (buffer : list Z),
    Forall (fun c => c <> []) chunks ->
    0 <= k -> k + Z.of_nat (length (concat chunks)) < 5 ->
    length buffer = 5%nat ->
    read_packet (map Data chunks) buffer k
    = (LinkLost [],
       chunk_reads k chunks
         ++ Recv (5 - (k + Z.of_nat (length (concat chunks)))) 0 :: lost_tail).
Proof.
  induction chunks as [| c chunks IH]; intros k buffer Hne Hk Hsum Hbuf;
    rewrite read_packet_step; cbn [concat length] in *.
  - destruct (Z.ltb_spec k 5); [| lia].
    cbn [map recv script_source script_recv chunk_reads app].
    change (0 <=? 0) with true. cbv iota.
    now rewrite Z.add_0_r.
  - apply Forall_cons_iff in Hne. destruct Hne as [Hc Hne].
    rewrite length_app in Hsum.
    assert (Hpos : (0 < length c)%nat) by (destruct c; [congruence | cbn; lia]).
    destruct (Z.ltb_spec k 5); [| lia].
    cbn [map recv script_source script_recv].
    rewrite firstn_all2, skipn_all2 by lia.
    destruct (Z.leb_spec (Z.of_nat (length c)) 0); [lia |].
    rewrite IH; try assumption; try lia.
    + cbn [chunk_reads app]. rewrite length_app, Nat2Z.inj_add, Z.add_assoc.
      reflexivity.
    + rewrite store_length; lia.
Qed.

Section StreamFacts.
Context {Sink : Type} `{DatagramSink Sink}.
Variable host : endianness.

Lemma cycle_on_window (k : Sink) (buffer0 : list Z) (chunks : list (list Z))
    (w tail : list Z) :
  length w = 5%nat -> length buffer0 = 5%nat ->
  Forall (fun c => c <> []) chunks -> concat chunks = w ++ tail ->
  exists chunks' k' tr,
    cycle host {| sock_tcp := map Data chunks; sock_udp := k;
                  buffer := buffer0 |}
    = (Continue {| sock_tcp := map Data chunks'; sock_udp := k';
                   buffer := w |}, tr) /\
    Forall (fun c => c <> []) chunks' /\ concat chunks' = tail /\
    consumed tr = 5 /\ sends tr = window_sends host w /\
    printed tr = [window_print w].
Proof.
  intros Hw Hbuf Hne Hcat.
  destruct (@read_window w tail buffer0 chunks Hw Hbuf Hne Hcat)
    as (cs' & rtr & Hread & Hne' & Hcat').
  assert (Hcycle : exists k' tr,
             cycle host {| sock_tcp := map Data chunks; sock_udp := k;
                           buffer := buffer0 |}
             = (Continue {| sock_tcp := map Data cs'; sock_udp := k';
                            buffer := w |}, tr)).
  { unfold cycle. cbn [sock_tcp sock_udp buffer]. rewrite Hread.
    destruct (validate w); [eauto | eauto |].
    destruct (sendto k _) as [sent k']. eauto. }
  destruct Hcycle as (k' & tr & Hcycle).
  destruct (cycle_window host _ script_well_behaved Hcycle) as [Hsum Hdone].
  cbn [buffer] in Hdone. exists cs', k', tr.
  unfold window_sends, window_print.
  destruct (validate w); cbv zeta in Hdone; destruct Hdone as [-> ->];
    repeat split; auto.
Qed.

Lemma bridge_on_windows (windows : list (list Z)) :
  forall (k : Sink) (buffer0 : list Z) (chunks : list (list Z))
         (leftover : list Z),
    Forall (fun w => length w = 5%nat) windows ->
    length buffer0 = 5%nat ->
    Forall (fun c => c <> []) chunks ->
    concat chunks = concat windows ++ leftover ->
    exists st' tr chunks',
      bridge host (length windows)
        {| sock_tcp := map Data chunks; sock_udp := k; buffer := buffer0 |}
      = (Continue st', tr) /\
      sends tr = flat_map (window_sends host) windows /\
      printed tr = map window_print windows /\
      consumed tr = 5 * Z.of_nat (length windows) /\
      sock_tcp st' = map Data chunks' /\ concat chunks' = leftover /\
      Forall (fun c => c <> []) chunks' /\ length (buffer st') = 5%nat.
Proof.
  induction windows as [| w ws IH];
    intros k buffer0 chunks leftover Hws Hbuf Hne Hcat.
  - cbn [length bridge concat app] in *.
    exists {| sock_tcp := map Data chunks; sock_udp := k; buffer := buffer0 |},
      [], chunks.
    repeat split; auto.
  - apply Forall_cons_iff in Hws. destruct Hws as [Hw Hws].
    cbn [concat] in Hcat. rewrite <- app_assoc in Hcat.
    destruct (@cycle_on_window k buffer0 chunks w _ Hw Hbuf Hne Hcat)
      as (cs1 & k1 & tr1 & Hcycle & Hne1 & Hcat1 & Hsum1 & Hs1 & Hp1).
    destruct (IH k1 w cs1 leftover Hws Hw Hne1 Hcat1)
      as (st' & tr2 & cs2 & Hrun & Hs2 & Hp2 & Hsum2 & Hsrc & Hleft & Hne2
          & Hlen).
    cbn [length bridge]. rewrite Hcycle, Hrun.
    exists st', (tr1 ++ tr2), cs2.
    rewrite sends_app, printed_app, consumed_app, Hs1, Hs2, Hp1, Hp2, Hsum1,
      Hsum2.
    cbn [flat_map map app]. repeat split; auto. lia.
Qed.

Lemma bridge_on_truncated_stream (windows : list (list Z)) (k : Sink)
    (buffer0 : list Z) (chunks : list (list Z)) (leftover : list Z) :
  Forall (fun w => length w = 5%nat) windows ->
  length buffer0 = 5%nat ->
  Forall (fun c => c <> []) chunks ->
  concat chunks = concat windows ++ leftover ->
  (length leftover < 5)%nat ->
  exists tr,
    (forall m,
        bridge host (S (length windows) + m)
          {| sock_tcp := map Data chunks; sock_udp := k; buffer := buffer0 |}
        = (Exit 1, tr)) /\
    sends tr = flat_map (window_sends host) windows /\
    printed tr = map window_print windows ++ [SensorDisconnected] /\
    consumed tr = 5 * Z.of_nat (length windows) + Z.of_nat (length leftover).
Proof.
  intros Hws Hbuf Hne Hcat Hshort.
  destruct (@bridge_on_windows windows k buffer0 chunks leftover
              Hws Hbuf Hne Hcat)
    as (st' & tr & cs' & Hrun & Hs & Hp & Hsum & Hsrc & Hleft & Hne' & Hlen).
  assert (Hlast : cycle host st'
                  = (Exit 1,
                     chunk_reads 0 cs'
                       ++ Recv (5 - (0 + Z.of_nat (length (concat cs')))) 0
                            :: lost_tail)).
  { unfold cycle. rewrite Hsrc, read_packet_short; try assumption; try lia.
    - reflexivity.
    - rewrite Hleft. lia. }
  destruct (consumed_chunk_reads cs' 0) as (Hc & Hcs & Hcp).
  eexists. split; [| split; [| split]].
  - intros m. apply bridge_exit_stable.
    replace (S (length windows)) with (length windows + 1)%nat by lia.
    rewrite bridge_add, Hrun. cbn [bridge]. rewrite Hlast. reflexivity.
  - rewrite !sends_app, Hs, Hcs. cbn [sends lost_tail app].
    now rewrite app_nil_r.
  - rewrite !printed_app, Hp, Hcp. reflexivity.
  - rewrite !consumed_app, Hsum, Hc, Hleft. cbn [consumed lost_tail]. lia.
Qed.

(** X5: the gateway cuts the stream into windows of five bytes counted
    from the first byte received, however the bytes arrive.  For a stream
    that starts with the windows [windows], delivered in any non-empty
    pieces, the first iterations, one per window, take five bytes each and
    do for each window, in order, what the validator decides: one frame
    for a valid window, a warning and no frame otherwise.  What follows
    the windows is left in the stream. *)
Theorem frames_follow_windows (windows : list (list Z)) :
  forall (k : Sink) (buffer0 : list Z) (chunks : list (list Z))
         (leftover : list Z),
    Forall (fun w => length w = 5%nat) windows ->
    length buffer0 = 5%nat ->
    Forall (fun c => c <> []) chunks ->
    concat chunks = concat windows ++ leftover ->
    exists st' tr chunks',
      bridge host (length windows)
        {| sock_tcp := map Data chunks; sock_udp := k; buffer := buffer0 |}
      = (Continue st', tr) /\
      sends tr = flat_map (window_sends host) windows /\
      printed tr = map window_print windows /\
      consumed tr = 5 * Z.of_nat (length windows) /\
      sock_tcp st' = map Data chunks' /\ concat chunks' = leftover /\
      Forall (fun c => c <> []) chunks' /\ length (buffer st') = 5%nat.
Proof. exact (@bridge_on_windows windows). Qed.

(** X6: when the stream is closed after whole windows and fewer than five
    further bytes, the gateway takes those last bytes, sends nothing for
    them, reports the disconnection and returns 1; the frames it has sent
    are those of the whole windows, and nothing is added however long the
    program is observed. *)
Theorem truncated_packet_dropped (windows : list (list Z)) (k : Sink)
    (buffer0 : list Z) (chunks : list (list Z)) (leftover : list Z) :
  Forall (fun w => length w = 5%nat) windows ->
  length buffer0 = 5%nat ->
  Forall (fun c => c <> []) chunks ->
  concat chunks = concat windows ++ leftover ->
  (length leftover < 5)%nat ->
  exists tr,
    (forall m,
        bridge host (S (length windows) + m)
          {| sock_tcp := map Data chunks; sock_udp := k; buffer := buffer0 |}
        = (Exit 1, tr)) /\
    sends tr = flat_map (window_sends host) windows /\
    printed tr = map window_print windows ++ [SensorDisconnected] /\
    consumed tr = 5 * Z.of_nat (length windows) + Z.of_nat (length leftover).
Proof. apply bridge_on_truncated_stream. Qed.

End StreamFacts.

Lemma frames_follow_windows_witness :
  exists st' tr,
    bridge LittleEndian 2
      {| sock_tcp := map Data [[0xAA; 0x0C; 0x1C]; [0x2D; 0xFF; 0x00; 0x01];
                               [0x02; 0x03; 0x04; 0xAA]];
         sock_udp := @nil Z;
         buffer := [0; 0; 0; 0; 0] |} = (Continue st', tr) /\
    sends tr = [[0; 1; 0; 0; 8; 0x0C; 0x1C; 0x2D; 0; 0; 0; 0; 0]] /\
    printed tr = [RxTx 3100 45 STATUS_OK; SyncByteError 0] /\
    sock_tcp st' = [Data [0xAA]].
Proof.
  destruct (@frames_follow_windows (list Z) _ LittleEndian
              [[0xAA; 0x0C; 0x1C; 0x2D; 0xFF]; [0x00; 0x01; 0x02; 0x03; 0x04]]
              [] [0; 0; 0; 0; 0]
              [[0xAA; 0x0C; 0x1C]; [0x2D; 0xFF; 0x00; 0x01];
               [0x02; 0x03; 0x04; 0xAA]]
              [0xAA])
    as (st' & tr & cs' & Hrun & Hs & Hp & _ & Hsrc & Hleft & Hne & _).
  - repeat constructor.
  - reflexivity.
  - repeat constructor; discriminate.
  - reflexivity.
  - exists st', tr. split; [exact Hrun |]. split; [exact Hs |].
    split; [exact Hp |].
    destruct cs' as [| c [| c' cs']].
    + discriminate.
    + cbn in Hleft. rewrite app_nil_r in Hleft. now subst c.
    + exfalso. cbn [concat] in Hleft.
      apply Forall_cons_iff in Hne. destruct Hne as [Hc Hne].
      apply Forall_cons_iff in Hne. destruct Hne as [Hc' _].
      destruct c as [| x [| y c]]; [congruence | | discriminate].
      destruct c'; [congruence | discriminate].
Defined.

Lemma truncated_packet_dropped_witness :
  exists tr,
    bridge BigEndian 2
      {| sock_tcp := map Data [[0xAA; 0x0C; 0x1C; 0x2D; 0xFF; 0xAA; 0x0C]];
         sock_udp := @nil Z;
         buffer := [0; 0; 0; 0; 0] |} = (Exit 1, tr) /\
    sends tr = [[0; 0; 1; 0; 8; 0x0C; 0x1C; 0x2D; 0; 0; 0; 0; 0]] /\
    consumed tr = 7.
Proof.
  destruct (@truncated_packet_dropped (list Z) _ BigEndian
              [[0xAA; 0x0C; 0x1C; 0x2D; 0xFF]] [] [0; 0; 0; 0; 0]
              [[0xAA; 0x0C; 0x1C; 0x2D; 0xFF; 0xAA; 0x0C]] [0xAA; 0x0C])
    as (tr & Hrun & Hs & _ & Hsum).
  - repeat constructor.
  - reflexivity.
  - repeat constructor; discriminate.
  - reflexivity.
  - cbn. lia.
  - exists tr. split; [exact (Hrun 0%nat) |]. split; [exact Hs | exact Hsum].
Defined.

(** ** A stream that has lost its first byte *)

Lemma bridge_prefix {Src Sink : Type} `{ByteSource Src} `{DatagramSink Sink}
    (host : endianness) (n m : nat) (st : state Src Sink) :
  exists tr', snd (bridge host (n + m) st) = snd (bridge host n st) ++ tr'.
Proof.
  rewrite bridge_add.
  destruct (bridge host n st) as [[code | st'] tr]; cbn [snd].
  - exists []. now rewrite app_nil_r.
  - destruct (bridge host m st') as [out tr']. now exists tr'.
Qed.

Lemma slipped_windows_spec (host : endianness) (ps : list (Z * Z * Z)) :
  forall p : Z * Z * Z,
    Forall (fun q => fst (fst q) <> 0xAA) (p :: ps) ->
    let (ws, left) := slipped_windows (tl (encode_payload p)) ps in
    tl (concat (map encode_payload (p :: ps))) = concat ws ++ left /\
    Forall (fun w => length w = 5%nat) ws /\ length left = 4%nat /\
    flat_map (window_sends host) ws = [] /\
    map window_print ws
    = map (fun q => SyncByteError (fst (fst q))) (removelast (p :: ps)).
Proof.
  induction ps as [| q ps IH]; intros [[b1 b2] b3] Hok.
  - cbn. repeat split; constructor.
  - apply Forall_cons_iff in Hok. destruct Hok as [Hb1 Hok].
    specialize (IH q Hok). cbn [slipped_windows].
    destruct (slipped_windows (tl (encode_payload q)) ps) as [ws left].
    destruct IH as (Hcat & Hlen & Hleft & Hsends & Hprint).
    destruct q as [[c1 c2] c3]. cbn [fst] in Hb1.
    assert (Hv : validate (tl (encode_payload (b1, b2, b3)) ++ [0xAA])
                 = SyncError b1).
    { unfold validate. cbn [encode_payload MockSensor.encode tl app nth].
      destruct (Z.eqb_spec b1 170); [contradiction | reflexivity]. }
    split; [| split; [| split; [| split]]].
    + cbn [map concat encode_payload MockSensor.encode tl app] in *.
      rewrite <- Hcat. reflexivity.
    + constructor; [reflexivity | assumption].
    + assumption.
    + cbn [flat_map]. unfold window_sends at 1. now rewrite Hv.
    + cbn [map]. unfold window_print at 1. rewrite Hv, Hprint. reflexivity.
Qed.

(** X7: no resynchronisation.  When the first byte of the stream is lost
    and the packets that follow all have a voltage high byte other than
    0xAA, every window the gateway reads starts one byte late: it warns of
    a sync error for each, using up the whole stream, and no frame is ever
    sent, although every packet was well formed. *)
Theorem lost_first_byte_never_resyncs {Sink : Type} `{DatagramSink Sink}
    (host : endianness) (p : Z * Z * Z) (ps : list (Z * Z * Z))
    (k : Sink) (buffer0 : list Z) (chunks : list (list Z)) :
  Forall (fun q => fst (fst q) <> 0xAA) (p :: ps) ->
  length buffer0 = 5%nat ->
  Forall (fun c => c <> []) chunks ->
  concat chunks = tl (concat (map encode_payload (p :: ps))) ->
  (forall m,
      sends (snd (bridge host m
                    {| sock_tcp := map Data chunks; sock_udp := k;
                       buffer := buffer0 |})) = []) /\
  exists tr,
    (forall m,
        bridge host (S (length ps) + m)
          {| sock_tcp := map Data chunks; sock_udp := k; buffer := buffer0 |}
        = (Exit 1, tr)) /\
    printed tr
    = map (fun q => SyncByteError (fst (fst q))) (removelast (p :: ps))
        ++ [SensorDisconnected].
Proof.
  intros Hok Hbuf Hne Hcat.
  pose proof (slipped_windows_spec host Hok) as Hspec.
  destruct (slipped_windows (tl (encode_payload p)) ps) as [ws left] eqn:Hws.
  destruct Hspec as (Hstream & Hlen & Hleft & Hsends & Hprint).
  rewrite Hstream in Hcat.
  destruct (@bridge_on_truncated_stream Sink _ host ws k buffer0 chunks left
              Hlen Hbuf Hne Hcat ltac:(lia))
    as (tr & Hrun & Hs & Hp & _).
  assert (Hcount : length ws = length ps).
  { clear - Hws. revert p ws left Hws.
    induction ps as [| q ps IH]; intros p ws left Hws;
      cbn [slipped_windows] in Hws.
    - now injection Hws as <- _.
    - destruct (slipped_windows (tl (encode_payload q)) ps) as [ws' left']
        eqn:Hrec.
      injection Hws as <- _. cbn [length]. f_equal. exact (IH _ _ _ Hrec). }
  rewrite Hcount in Hrun. split.
  - intros m. destruct (Nat.le_ge_cases m (S (length ps))) as [Hle | Hge].
    + destruct (bridge_prefix host m (S (length ps) - m)
                  {| sock_tcp := map Data chunks; sock_udp := k;
                     buffer := buffer0 |}) as [tr' Hpre].
      replace (m + (S (length ps) - m))%nat with (S (length ps) + 0)%nat
        in Hpre by lia.
      rewrite Hrun in Hpre. cbn [snd] in Hpre.
      rewrite Hsends, Hpre, sends_app in Hs.
      now apply app_eq_nil in Hs.
    + replace m with (S (length ps) + (m - S (length ps)))%nat by lia.
      rewrite Hrun. cbn [snd]. now rewrite Hs.
  - exists tr. split; [exact Hrun |]. now rewrite Hp, Hprint.
Qed.

Lemma lost_first_byte_never_resyncs_witness :
  sends (snd (bridge LittleEndian 7
                {| sock_tcp := map Data [[0x0C; 0x1C; 0x2D; 0xFF; 0xAA; 0x0C];
                                         [0x1C; 0x2D; 0xFF]];
                   sock_udp := @nil Z;
                   buffer := [0; 0; 0; 0; 0] |})) = [].
Proof.
  destruct (@lost_first_byte_never_resyncs (list Z) _ LittleEndian
              (0x0C, 0x1C, 0x2D) [(0x0C, 0x1C, 0x2D)] []
              [0; 0; 0; 0; 0]
              [[0x0C; 0x1C; 0x2D; 0xFF; 0xAA; 0x0C]; [0x1C; 0x2D; 0xFF]])
    as [Hnone _].
  - repeat constructor; cbn; discriminate.
  - reflexivity.
  - repeat constructor; discriminate.
  - reflexivity.
  - exact (Hnone 7%nat).
Defined.

(** ** What every run of the main loop keeps *)

Section RunFacts.
Context {Src Sink : Type} `{ByteSource Src} `{DatagramSink Sink}.
Variable host : endianness.
Hypothesis recv_bounds : well_behaved.

Lemma read_packet_overwrites (n : nat) :
  forall (s : Src) (b1 b2 : list Z) (k : Z),
    (remaining k <= n)%nat -> 0 <= k <= 5 ->
    length b1 = 5%nat -> length b2 = 5%nat ->
    firstn (Z.to_nat k) b1 = firstn (Z.to_nat k) b2 ->
    read_packet s b1 k = read_packet s b2 k.
Proof.
  induction n as [| n IH]; intros s b1 b2 k Hn Hk H1 H2 Hpre;
    rewrite !(read_packet_step s);
    destruct (Z.ltb_spec k 5) as [Hlt | Hge];
    try (unfold remaining in Hn; lia).
  - rewrite !firstn_all2 in Hpre by lia. now subst b2.
  - remember (5 - k) as want eqn:Hwant.
    destruct (recv s want) as [[result bytes] s'] eqn:Hrecv.
    destruct (Z.leb_spec result 0) as [Hle | Hgt]; [reflexivity |].
    destruct (recv_bounds _ _ Hrecv Hgt) as [Hupper Hlen].
    rewrite (IH s' (store b1 k bytes) (store b2 k bytes) (k + result));
      try reflexivity; try (rewrite store_length; lia);
      try (unfold remaining in *; lia).
    rewrite <- Hlen, !store_prefix by lia. now rewrite Hpre.
  - rewrite !firstn_all2 in Hpre by lia. now subst b2.
Qed.

(** X8: nothing of an earlier packet survives in the receive buffer.
    Whatever the buffer holds when an iteration starts, the iteration
    does the same calls and ends in the same state. *)
Theorem stale_buffer_is_irrelevant (s : Src) (k : Sink) (b1 b2 : list Z)
    (n : nat) :
  length b1 = 5%nat -> length b2 = 5%nat ->
  cycle host {| sock_tcp := s; sock_udp := k; buffer := b1 |}
  = cycle host {| sock_tcp := s; sock_udp := k; buffer := b2 |} /\
  bridge host (S n) {| sock_tcp := s; sock_udp := k; buffer := b1 |}
  = bridge host (S n) {| sock_tcp := s; sock_udp := k; buffer := b2 |}.
Proof.
  intros H1 H2.
  assert (Hcycle : cycle host {| sock_tcp := s; sock_udp := k; buffer := b1 |}
                   = cycle host {| sock_tcp := s; sock_udp := k;
                                   buffer := b2 |}).
  { unfold cycle. cbn [sock_tcp sock_udp buffer].
    rewrite (@read_packet_overwrites 5 s b1 b2 0); try reflexivity;
      try assumption; try lia; try (unfold remaining; lia). }
  split; [exact Hcycle |]. cbn [bridge]. now rewrite Hcycle.
Qed.

Lemma consumed_nonneg (tr : list event) : 0 <= consumed tr.
Proof.
  induction tr as [| e tr IH]; cbn [consumed]; [lia |].
  destruct e; lia.
Qed.

Lemma cycle_exit_bounds (st : state Src Sink) code tr :
  cycle host st = (Exit code, tr) -> sends tr = [] /\ consumed tr < 5.
Proof.
  unfold cycle. intros Heq.
  destruct (read_packet (sock_tcp st) (buffer st) 0) as [r rtr] eqn:Hread.
  assert (Hrem : (remaining 0 <= 5)%nat) by (unfold remaining; lia).
  destruct (read_packet_shape _ _ _ Hrem Hread) as (_ & Hsends & _).
  destruct (read_packet_bounds recv_bounds _ _ Hrem ltac:(lia) Hread)
    as [_ Hsum].
  destruct r as [s' | buf s'].
  - injection Heq as _ <-. split; [assumption | lia].
  - destruct (validate buf); [| | destruct (sendto (sock_udp st) _)];
      discriminate.
Qed.

(** X9: the gateway never sends more than it has received.  After [n]
    iterations it has taken at most [5 n] bytes from the stream, exactly
    [5 n] while it is still running, and has sent at most one frame per
    five bytes taken. *)
Theorem one_frame_per_five_bytes (n : nat) :
  forall (st : state Src Sink) out tr,
    bridge host n st = (out, tr) ->
    5 * Z.of_nat (length (sends tr)) <= consumed tr <= 5 * Z.of_nat n /\
    match out with
    | Continue _ => consumed tr = 5 * Z.of_nat n
    | Exit _ => consumed tr < 5 * Z.of_nat n
    end.
Proof.
  induction n as [| n IH]; intros st out tr Heq; cbn [bridge] in Heq.
  - injection Heq as <- <-. cbn. lia.
  - destruct (cycle host st) as [[code | st1] tr1] eqn:Hcycle.
    + injection Heq as <- <-.
      destruct (cycle_exit_bounds _ Hcycle) as [-> Hlt].
      pose proof (consumed_nonneg tr1). cbn [length]. lia.
    + destruct (cycle_window host _ recv_bounds Hcycle) as [Hsum Hdone].
      assert (Hone : (length (sends tr1) <= 1)%nat).
      { destruct (validate (buffer st1)); cbv zeta in Hdone;
          destruct Hdone as [-> _]; cbn; lia. }
      destruct (bridge host n st1) as [out2 tr2] eqn:Hrest.
      injection Heq as <- <-. apply IH in Hrest.
      rewrite sends_app, length_app, consumed_app.
      destruct Hrest as [Hbound Hout]. split; [lia |].
      destruct out2; lia.
Qed.

Lemma bridge_event_origin (n : nat) :
  forall (st : state Src Sink) (e : event),
    In e (snd (bridge host n st)) ->
    exists st', In e (snd (cycle host st')).
Proof.
  induction n as [| n IH]; intros st e Hin; cbn [bridge] in Hin.
  - destruct Hin.
  - destruct (cycle host st) as [[code | st1] tr1] eqn:Hcycle.
    + exists st. now rewrite Hcycle.
    + destruct (bridge host n st1) as [out2 tr2] eqn:Hrest.
      cbn [snd] in Hin. apply in_app_or in Hin. destruct Hin as [Hin | Hin].
      * exists st. now rewrite Hcycle.
      * apply (IH st1). now rewrite Hrest.
Qed.

End RunFacts.

(** X10: every frame put on the bus is consistent with itself.  Any
    datagram sent during a run has 13 bytes: the identifier 0x100, the
    length 8, three payload bytes, the status that the safety logic gives
    for exactly those three bytes, one of the codes 0, 1, 2, and four zero
    bytes. *)
Theorem sent_frames_are_consistent {Src Sink : Type} `{ByteSource Src}
    `{DatagramSink Sink} (host : endianness) (n : nat)
    (st : state Src Sink) (dgram : list Z) (sent : Z) :
  In (Sendto dgram sent) (snd (bridge host n st)) ->
  length dgram = 13%nat /\
  firstn 5 dgram = uint32_bytes host 0x100 ++ [8] /\
  nth 8 dgram 0
  = status (nth 7 dgram 0) (voltage_mv (nth 5 dgram 0) (nth 6 dgram 0)) /\
  (nth 8 dgram 0 = STATUS_OK \/ nth 8 dgram 0 = STATUS_WARN_LOW_VOLT \/
   nth 8 dgram 0 = STATUS_CRIT_TEMP) /\
  skipn 9 dgram = [0; 0; 0; 0].
Proof.
  intros Hin. apply bridge_event_origin in Hin. destruct Hin as [st' Hin].
  destruct (cycle host st') as [out tr] eqn:Hcycle. cbn [snd] in Hin.
  eapply cycle_after_send in Hin; [| exact Hcycle].
  destruct Hin as (_ & _ & volt_hi & volt_lo & temp & _ & _ & -> & _).
  split; [now destruct host |]. split; [now destruct host |].
  split; [now destruct host |]. split; [| now destruct host].
  replace (nth 8 (frame_bytes host _) 0)
    with (status temp (voltage_mv volt_hi volt_lo)) by now destruct host.
  unfold status.
  destruct (temp >? 60); [auto |].
  destruct (voltage_mv volt_hi volt_lo <? 3100); auto.
Qed.

Lemma sent_frames_are_consistent_witness :
  nth 8 [0; 1; 0; 0; 8; 0x0C; 0x1C; 0x2D; 0; 0; 0; 0; 0] 0
  = status 0x2D (voltage_mv 0x0C 0x1C).
Proof.
  destruct (@sent_frames_are_consistent (list delivery) (list Z) _ _
              LittleEndian 3 cut_stream_state
              [0; 1; 0; 0; 8; 0x0C; 0x1C; 0x2D; 0; 0; 0; 0; 0] (-1))
    as (_ & _ & Hstatus & _).
  - vm_compute. right. right. left. reflexivity.
  - exact Hstatus.
Defined.

Lemma stale_buffer_is_irrelevant_witness :
  bridge LittleEndian 3 cut_stream_state
  = bridge LittleEndian 3
      {| sock_tcp := sock_tcp cut_stream_state;
         sock_udp := sock_udp cut_stream_state;
         buffer := [0xAA; 0x0C; 0x1C; 0x2D; 0xFF] |}.
Proof.
  destruct (@stale_buffer_is_irrelevant (list delivery) (list Z) _ _
              LittleEndian script_well_behaved
              (sock_tcp cut_stream_state) (sock_udp cut_stream_state)
              [0; 0; 0; 0; 0] [0xAA; 0x0C; 0x1C; 0x2D; 0xFF] 2
              eq_refl eq_refl) as [_ Hrun].
  exact Hrun.
Defined.

Lemma one_frame_per_five_bytes_witness :
  5 * Z.of_nat (length (sends cut_stream_trace)) <= consumed cut_stream_trace
  /\ consumed cut_stream_trace < 5 * 3.
Proof.
  destruct (@one_frame_per_five_bytes (list delivery) (list Z) _ _
              LittleEndian script_well_behaved 3 cut_stream_state
              (Exit 1) cut_stream_trace cut_stream_run) as [Hbound Hout].
  split; [apply Hbound | exact Hout].
Defined.

(** ** The simulated sensor *)

Lemma sensor_step_on_course (s : MockSensorMain.sim) :
  MockSensorMain.on_course s ->
  MockSensorMain.on_course (MockSensorMain.step s) /\
  MockSensorMain.total_packets_sent (MockSensorMain.step s)
  = MockSensorMain.total_packets_sent s + 1.
Proof.
  destruct s as [v t n]. unfold MockSensorMain.on_course, MockSensorMain.step.
  cbn [MockSensorMain.voltage_mv MockSensorMain.temp_c
       MockSensorMain.total_packets_sent].
  intros (Ht & Hn & Hphase). split; [| reflexivity].
  split; [exact Ht |]. split; [lia |].
  assert (Hwrap : Z.land (v + 10) 0xFFFF = v + 10).
  { change 0xFFFF with (Z.ones 16). rewrite Z.land_ones by lia.
    apply Z.mod_small. change (2 ^ 16) with 65536.
    destruct Hphase as [(_ & Hv & _) | (_ & ->)]; [lia |].
    pose proof (Z.mod_pos_bound n 50). lia. }
  rewrite Hwrap.
  rewrite Z.rem_mod_nonneg by lia.
  pose proof (Z.mod_pos_bound (n + 1) 50 ltac:(lia)) as Hmod.
  pose proof (Z.div_mod (n + 1) 50 ltac:(lia)) as Hdiv.
  destruct Hphase as [(Hearly & Hv & Hten) | (Hlate & ->)].
  - assert (Hten' : (if v + 10 >? 4000 then 3000 else v + 10) mod 10 = 0).
    { destruct (Z.gtb_spec (v + 10) 4000); [reflexivity |].
      rewrite Z.add_mod, Hten by lia. reflexivity. }
    destruct (Z.gtb_spec (n + 1) 300) as [Hgt | Hle].
    + destruct (Z.eqb_spec ((n + 1) mod 50) 0) as [Hz | Hnz].
      * (* the first fault, at packet 350 *)
        right. split; [lia |]. rewrite Hz. reflexivity.
      * left. split; [lia |]. split; [| exact Hten'].
        destruct (Z.gtb_spec (v + 10) 4000); lia.
    + left. split; [lia |]. split; [| exact Hten'].
      destruct (Z.gtb_spec (v + 10) 4000); lia.
  - pose proof (Z.mod_pos_bound n 50 ltac:(lia)) as Hmodn.
    pose proof (Z.div_mod n 50 ltac:(lia)) as Hdivn.
    right. split; [lia |].
    destruct (Z.gtb_spec (100 + 10 * (n mod 50) + 10) 4000); [lia |].
    destruct (Z.gtb_spec (n + 1) 300); [| lia].
    destruct (Z.eqb_spec ((n + 1) mod 50) 0) as [Hz | Hnz]; [lia |].
    assert ((n + 1) mod 50 = n mod 50 + 1); [| lia].
    symmetry. apply Z.mod_unique with (n / 50); lia.
Qed.

Lemma sensor_after_on_course (n : nat) :
  MockSensorMain.on_course (MockSensorMain.after n) /\
  MockSensorMain.total_packets_sent (MockSensorMain.after n) = Z.of_nat n.
Proof.
  induction n as [| n [IHc IHn]].
  - split; [| reflexivity].
    unfold MockSensorMain.on_course. cbn. lia.
  - change (MockSensorMain.after (S n))
      with (MockSensorMain.step (MockSensorMain.after n)).
    destruct (sensor_step_on_course IHc) as [Hc Hn].
    split; [exact Hc | lia].
Qed.



(** X11: through packet 349 the simulated sensor reports a voltage between
    3000 and 4000 mV, a multiple of 10, at 45 degrees; the gateway's status
    for such a reading is the low-voltage code below 3100 mV and OK from
    3100 mV on, never the critical-temperature code. *)
Theorem sensor_sawtooth_before_faults (n : nat) :
  (n <= 349)%nat ->
  let s := MockSensorMain.after n in
  MockSensorMain.total_packets_sent s = Z.of_nat n /\
  MockSensorMain.temp_c s = 45 /\
  3000 <= MockSensorMain.voltage_mv s <= 4000 /\
  MockSensorMain.voltage_mv s mod 10 = 0 /\
  status (MockSensorMain.temp_c s) (MockSensorMain.voltage_mv s)
  = (if MockSensorMain.voltage_mv s <? 3100 then STATUS_WARN_LOW_VOLT
     else STATUS_OK).
Proof.
  intros Hn s. subst s.
  destruct (sensor_after_on_course n) as [(Ht & _ & Hphase) Hcount].
  rewrite Hcount in Hphase.
  destruct Hphase as [(_ & Hv & Hten) | (Hlate & _)]; [| lia].
  repeat split; try assumption; try lia.
  rewrite Ht. unfold status. reflexivity.
Qed.

Lemma sensor_sawtooth_before_faults_witness :
  MockSensorMain.voltage_mv (MockSensorMain.after 71) = 3000 /\
  3000 <= MockSensorMain.voltage_mv (MockSensorMain.after 349) <= 4000.
Proof.
  split; [vm_compute; reflexivity |].
  destruct (@sensor_sawtooth_before_faults 349 ltac:(lia))
    as (_ & _ & Hv & _).
  exact Hv.
Defined.



(** ** Sensor and gateway together *)

Lemma window_of_reading (host : endianness) (mv temp_c : Z) :
  0 <= mv < 65536 ->
  window_print (MockSensor.buffer mv temp_c)
  = RxTx mv temp_c (status temp_c mv) /\
  window_sends host (MockSensor.buffer mv temp_c)
  = [frame_bytes host
       (frame (Z.land (Z.shiftr mv 8) 0xFF) (Z.land mv 0xFF) temp_c
          (status temp_c mv))].
Proof.
  intros Hmv. unfold window_print, window_sends, MockSensor.buffer.
  rewrite validate_encoded, voltage_mv_encoded by assumption. auto.
Qed.






(** X14: a reading reaches the bus unchanged.  For any 16-bit voltage and
    any temperature, the packet that either sensor program builds,
    delivered in any non-empty pieces, makes the gateway send one frame
    with the sensor's two voltage bytes, the temperature and the status
    for that voltage and temperature, and print that same voltage. *)
Theorem reading_reaches_the_bus {Sink : Type} `{DatagramSink Sink}
    (host : endianness) (mv temp_c : Z) (k : Sink) (buffer0 : list Z)
    (chunks : list (list Z)) :
  0 <= mv < 65536 ->
  length buffer0 = 5%nat ->
  Forall (fun c => c <> []) chunks ->
  concat chunks = MockSensor.buffer mv temp_c \/
  concat chunks = NMockSensor.buffer mv temp_c ->
  exists st' tr,
    cycle host
      {| sock_tcp := map Data chunks; sock_udp := k; buffer := buffer0 |}
    = (Continue st', tr) /\
    sends tr
    = [uint32_bytes host 0x100
         ++ [8; Z.land (Z.shiftr mv 8) 0xFF; Z.land mv 0xFF; temp_c;
             status temp_c mv; 0; 0; 0; 0]] /\
    printed tr = [RxTx mv temp_c (status temp_c mv)] /\
    consumed tr = 5.
Proof.
  intros Hmv Hbuf Hne Hcat.
  assert (Hcat' : concat chunks = MockSensor.buffer mv temp_c ++ []).
  { rewrite app_nil_r. destruct Hcat as [-> | ->]; reflexivity. }
  destruct (@cycle_on_window Sink _ host k buffer0 chunks
              (MockSensor.buffer mv temp_c) [] eq_refl Hbuf Hne Hcat')
    as (cs' & k' & tr & Hcycle & _ & _ & Hsum & Hs & Hp).
  destruct (window_of_reading host temp_c Hmv) as [Hprint Hsends].
  eexists _, tr. split; [exact Hcycle |].
  rewrite Hs, Hp, Hsends, Hprint. auto.
Qed.

Lemma reading_reaches_the_bus_witness :
  exists st' tr,
    cycle BigEndian
      {| sock_tcp := map Data [[0xAA; 0x0B]; [0xB8; 0x1E; 0x8B]];
         sock_udp := @nil Z;
         buffer := [0; 0; 0; 0; 0] |} = (Continue st', tr) /\
    printed tr = [RxTx 3000 30 STATUS_WARN_LOW_VOLT].
Proof.
  destruct (@reading_reaches_the_bus (list Z) _ BigEndian 3000 30 []
              [0; 0; 0; 0; 0] [[0xAA; 0x0B]; [0xB8; 0x1E; 0x8B]])
    as (st' & tr & Hcycle & _ & Hp & _).
  - lia.
  - reflexivity.
  - repeat constructor; discriminate.
  - left. vm_compute. reflexivity.
  - exists st', tr. split; [exact Hcycle | exact Hp].
Defined.

(** ** Start-up and exit status *)

Lemma connect_loop_retries (failures : list Z) :
  Forall (fun r => r < 0) failures ->
  forall results,
    connect_loop (failures ++ results)
    = (fst (connect_loop results),
       flat_map (fun r => [Connect r; Sleep 2]) failures
         ++ snd (connect_loop results)).
Proof.
  induction 1 as [| r failures Hr _ IH]; intros results;
    cbn [app connect_loop flat_map].
  - now destruct (connect_loop results).
  - destruct (Z.ltb_spec r 0); [| lia]. now rewrite IH.
Qed.

Lemma connect_loop_never_returns (results : list Z) :
  forall code, fst (connect_loop results) <> BootReturn code.
Proof.
  induction results as [| r results IH]; intros code; cbn [connect_loop].
  - discriminate.
  - destruct (r <? 0); [| discriminate].
    specialize (IH code). now destruct (connect_loop results).
Qed.

(** X15: the gateway waits for the sensor without limit.  Once both
    sockets exist, [connect] is tried again after every failure, however
    many there are, with a sleep of 2 seconds after each failed attempt
    and none after the successful one; as long as every attempt fails the
    program stays in that loop and does not return. *)
Theorem connect_is_retried_without_limit
    (udp tcp ok : Z) (failures rest : list Z) :
  0 <= udp -> 0 <= tcp -> Forall (fun r => r < 0) failures -> 0 <= ok ->
  startup {| udp_socket := udp; tcp_socket := tcp;
             connect_results := failures ++ ok :: rest |}
  = (BootConnected,
     flat_map (fun r => [Connect r; Sleep 2]) failures ++ [Connect ok]) /\
  startup {| udp_socket := udp; tcp_socket := tcp;
             connect_results := failures |}
  = (BootWaiting, flat_map (fun r => [Connect r; Sleep 2]) failures).
Proof.
  intros Hudp Htcp Hfail Hok. unfold startup.
  cbn [udp_socket tcp_socket connect_results].
  destruct (Z.ltb_spec udp 0); [lia |]. destruct (Z.ltb_spec tcp 0); [lia |].
  split.
  - rewrite (connect_loop_retries Hfail). cbn [connect_loop].
    destruct (Z.ltb_spec ok 0); [lia | reflexivity].
  - rewrite <- (app_nil_r failures) at 1.
    rewrite (connect_loop_retries Hfail). cbn [connect_loop fst snd].
    now rewrite app_nil_r.
Qed.

Lemma connect_is_retried_without_limit_witness :
  startup {| udp_socket := 3; tcp_socket := 4;
             connect_results := [-1; -1; -1; 0] |}
  = (BootConnected,
     [Connect (-1); Sleep 2; Connect (-1); Sleep 2; Connect (-1); Sleep 2;
      Connect 0]).
Proof.
  destruct (@connect_is_retried_without_limit 3 4 0 [-1; -1; -1] [])
    as [Hconnected _]; try lia.
  - repeat constructor.
  - exact Hconnected.
Defined.

(** X16: [main] never returns 0.  Whenever it returns, the status is 1,
    and it returns only because a socket could not be created, in which
    case nothing was connected, received or sent, or because a [recv] of
    the main loop returned zero or less. *)
Theorem main_returns_only_1 {Src Sink : Type} `{ByteSource Src}
    `{DatagramSink Sink} (host : endianness) (env : boot_env) (n : nat)
    (s : Src) (k : Sink) (buffer0 : list Z) code boot tr :
  main host env n s k buffer0 = (Returned code, boot, tr) ->
  code = 1 /\
  (((boot = [PerrorUdp] /\ udp_socket env < 0) \/
    (boot = [PerrorTcp] /\ tcp_socket env < 0)) /\ tr = [] \/
   (0 <= udp_socket env /\ 0 <= tcp_socket env /\
    exists pre len result,
      tr = pre ++ Recv len result :: lost_tail /\ result <= 0)).
Proof.
  unfold main, startup.
  destruct (Z.ltb_spec (udp_socket env) 0) as [Hudp | Hudp].
  { intros Heq. injection Heq as <- <- <-.
    split; [reflexivity |]. left. split; [| reflexivity]. left. auto. }
  destruct (Z.ltb_spec (tcp_socket env) 0) as [Htcp | Htcp].
  { intros Heq. injection Heq as <- <- <-.
    split; [reflexivity |]. left. split; [| reflexivity]. right. auto. }
  pose proof (connect_loop_never_returns (connect_results env)) as Hnever.
  destruct (connect_loop (connect_results env)) as [[c | |] btr];
    cbn [fst] in Hnever.
  - now destruct (Hnever c).
  - discriminate.
  - destruct (bridge host n _) as [[c | st] rtr] eqn:Hrun; [| discriminate].
    intros Heq. injection Heq as <- <- <-.
    destruct (bridge_shape _ _ _ Hrun)
      as (-> & pre & len & result & Htr & Hle & _).
    split; [reflexivity |]. right.
    split; [assumption |]. split; [assumption |].
    now exists pre, len, result.
Qed.

Lemma main_returns_only_1_witness :
  main LittleEndian
    {| udp_socket := 3; tcp_socket := 4; connect_results := [-1; 0] |}
    3 (sock_tcp cut_stream_state) (sock_udp cut_stream_state) [0; 0; 0; 0; 0]
  = (Returned 1, [Connect (-1); Sleep 2; Connect 0], cut_stream_trace) /\
  exists pre len result,
    cut_stream_trace = pre ++ Recv len result :: lost_tail /\ result <= 0.
Proof.
  assert (Hmain : main LittleEndian
                    {| udp_socket := 3; tcp_socket := 4;
                       connect_results := [-1; 0] |}
                    3 (sock_tcp cut_stream_state) (sock_udp cut_stream_state)
                    [0; 0; 0; 0; 0]
                  = (Returned 1, [Connect (-1); Sleep 2; Connect 0],
                     cut_stream_trace)) by (vm_compute; reflexivity).
  split; [exact Hmain |].
  destruct (main_returns_only_1 _ _ _ _ _ _ Hmain) as [_ [[_ Hnil] | Hlost]].
  - discriminate.
  - apply Hlost.
Defined.
